(** * DHT11 sensor reader: a shallow embedding of [dht11/__init__.py]

    The development follows the Python module top to bottom: the exception
    classes, [DHT11Response], then the methods of class [DHT11]
    ([__collect_input], [__parse_input_data], [__calculate_bits],
    [__validate_checksum], [read]).  The GPIO pin is the only source of
    input; it is modelled as the finite list of levels the next calls of
    [GPIO.input] are going to deliver. *)

From Stdlib Require Import ZArith List Bool Lia QArith.
From Stdlib Require Import Floats Numbers.Cyclic.Int63.Uint63.
Import ListNotations.

#[local] Set Warnings "-inexact-float".
#[local] Open Scope Z_scope.

(** ** Python values *)

Module Py.

(** The exceptions that can leave a method of the module: the three
    subclasses of [DHT11Error], and the built-in ones the interpreter
    raises for an unbound local, a missing attribute, [min([])] and an
    index out of range. *)
Inductive exn : Type :=
| DHT11ChecksumError
| DHT11TimeoutError
| DHT11InvalidDataError
| UnboundLocalError
| AttributeError
| ValueError
| IndexError.

(** [except DHT11Error] catches exactly the subclasses of [DHT11Error]. *)
Definition is_DHT11Error (e : exn) : bool :=
  match e with
  | DHT11ChecksumError | DHT11TimeoutError | DHT11InvalidDataError => true
  | _ => false
  end.

(** A computation that returns or raises. *)
Definition result (A : Type) : Type := (exn + A)%type.

Definition ret {A} (a : A) : result A := inr a.
Definition raise {A} (e : exn) : result A := inl e.
Definition bind {A B} (m : result A) (k : A -> result B) : result B :=
  match m with
  | inl e => inl e
  | inr a => k a
  end.

(** Python numbers: [int] (unbounded) and [float] (IEEE 754 binary64). *)
Inductive number : Type :=
| PyInt (z : Z)
| PyFloat (f : float).

(** [float(z)].  The conversion goes through a 63-bit integer and is the
    exact one for [|z| < 2^53]; every integer converted below is a byte or
    the literals [10] and [-1]. *)
Definition float_of_int (z : Z) : float :=
  if z <? 0 then PrimFloat.opp (PrimFloat.of_uint63 (Uint63.of_Z (- z)))
  else PrimFloat.of_uint63 (Uint63.of_Z z).

Definition to_float (x : number) : float :=
  match x with
  | PyInt z => float_of_int z
  | PyFloat f => f
  end.

(** [x + y], [x * y]: integer arithmetic on two ints, float arithmetic
    as soon as one operand is a float. *)
Definition add (x y : number) : number :=
  match x, y with
  | PyInt a, PyInt b => PyInt (a + b)
  | _, _ => PyFloat (PrimFloat.add (to_float x) (to_float y))
  end.

Definition mul (x y : number) : number :=
  match x, y with
  | PyInt a, PyInt b => PyInt (a * b)
  | _, _ => PyFloat (PrimFloat.mul (to_float x) (to_float y))
  end.

(** [x / y], true division: always a float.  (No divisor is zero in the
    module: the only one is the literal [10].) *)
Definition truediv (x y : number) : number :=
  PyFloat (PrimFloat.div (to_float x) (to_float y)).

(** [l[i]] for a non-negative constant index. *)
Definition getitem {A} (l : list A) (i : nat) : result A :=
  match nth_error l i with
  | Some a => ret a
  | None => raise IndexError
  end.

End Py.

Notation "x <- m ;; k" := (Py.bind m (fun x => k))
  (at level 61, m at next level, right associativity).

(** ** The GPIO port *)

Module GPIO.

(** [GPIO.LOW = 0] and [GPIO.HIGH = 1]; a sampled level is a [bool]. *)
Definition LOW : bool := false.
Definition HIGH : bool := true.

(** The integer a level compares equal to ([False == 0], [True == 1]). *)
Definition code (l : bool) : Z := if l then 1 else 0.

(** What the module does to the outside world, in program order:
    [GPIO.setup(pin, GPIO.OUT, initial=l)], [GPIO.setup(pin, GPIO.IN)],
    [GPIO.output(pin, l)] and [time.sleep(d)]. *)
Inductive event : Type :=
| setup_out (pin : Z) (initial : bool)
| setup_in (pin : Z)
| output (pin : Z) (l : bool)
| sleep (d : Py.number).

(** The world a sensor runs in: the levels the coming [GPIO.input] calls
    return, and the log of the calls made so far. *)
Record world : Type := World {
  pin_input : list bool;
  log : list event
}.

Definition emit (e : event) (w : world) : world :=
  World (pin_input w) (log w ++ [e]).

End GPIO.

Import GPIO.

(** ** DHT11Response *)

Definition STATUS_OK : Z := 0.
Definition STATUS_ERROR_CHECKSUM : Z := 1.
Definition STATUS_ERROR_TIMEOUT : Z := 2.

Record DHT11Response : Type := Response {
  status : Z;
  temperature : Py.number;
  humidity : Py.number
}.

(** [DHT11Response(status)]: both values default to the int [-1]. *)
Definition Response_default (st : Z) : DHT11Response :=
  Response st (Py.PyInt (-1)) (Py.PyInt (-1)).


(** ** DHT11 *)

(** The instance attributes.  [raise_error] is [None] while no assignment
    [self.raise_error = ...] has run: reading it then raises
    [AttributeError] (the class body defines [MIN_INTERVAL] only). *)
Record DHT11 : Type := Sensor {
  signal_pin : Z;
  max_tries : Z;
  min_interval : Py.number;
  raise_error : option bool
}.

Definition MIN_INTERVAL : Py.number := Py.PyInt 2.

(** [DHT11.__init__]: three assignments; the parameter [raise_error] is not
    stored. *)
Definition DHT11_init (signal_pin max_tries : Z) (min_interval : Py.number)
    (raise_error : bool) : DHT11 :=
  Sensor signal_pin max_tries min_interval None.

(** *** __collect_input *)

Definition unchanged_threshold : Z := 200.

(** The [while] loop of [__collect_input], one iteration per element of
    [pin].  [None]: the levels supplied ran out while the loop condition
    still held, that is, the loop is still polling. *)
Fixpoint collect_loop (unchanged_count last : Z) (data pin : list bool)
    {struct pin} : option (list bool * list bool) :=
  if unchanged_count <? unchanged_threshold then
    match pin with
    | [] => None
    | current :: pin' =>
        let data := data ++ [current] in
        let '(unchanged_count, last) :=
          if negb (last =? code current) then (0, code current)
          else (unchanged_count, last) in
        collect_loop (unchanged_count + 1) last data pin'
    end
  else Some (data, pin).

Definition collect_input (pin : list bool) : option (list bool * list bool) :=
  collect_loop 0 (-1) [] pin.

(** *** __parse_input_data *)

(** The first [for] loop, run on the samples [rest] from index [k] on.  The
    result is the value of [i] after the loop: the index of the [break], or
    what the last iteration left, or [None] when the loop variable was never
    bound. *)
Fixpoint find_beginning (pattern : Z) (i : option nat) (k : nat)
    (rest : list bool) : option nat :=
  match rest with
  | [] => i
  | d :: rest' =>
      let pattern := if (pattern =? 0) && Bool.eqb d LOW then 1 else pattern in
      let pattern := if (pattern =? 1) && Bool.eqb d HIGH then 2 else pattern in
      if (pattern =? 2) && Bool.eqb d LOW then Some k
      else find_beginning pattern (Some k) (S k) rest'
  end.

(** The second [for] loop, over [data[i:]]. *)
Fixpoint measure_high (high_signal_length : Z) (signals : list Z)
    (rest : list bool) : list Z :=
  match rest with
  | [] => signals
  | d :: rest' =>
      if Bool.eqb d HIGH then
        measure_high (high_signal_length + 1) signals rest'
      else if high_signal_length >? 0 then
        measure_high 0 (signals ++ [high_signal_length]) rest'
      else
        measure_high high_signal_length signals rest'
  end.

Definition parse_input_data (data : list bool) : Py.result (list Z) :=
  let signals := [] in
  let input_length := length data in
  match find_beginning 0 None 0 data with
  | None => Py.raise Py.UnboundLocalError
  | Some i =>
      if (input_length <=? i)%nat then Py.ret signals
      else Py.ret (measure_high 0 signals (skipn i data))
  end.

(** *** __calculate_bits *)

(** [min(signals)] and [max(signals)]. *)
Definition py_min (l : list Z) : Py.result Z :=
  match l with
  | [] => Py.raise Py.ValueError
  | x :: r => Py.ret (fold_left Z.min r x)
  end.

Definition py_max (l : list Z) : Py.result Z :=
  match l with
  | [] => Py.raise Py.ValueError
  | x :: r => Py.ret (fold_left Z.max r x)
  end.

(** [(min(signals) + max(signals)) / 2] as the rational it denotes.  The
    float Python computes is that rational exactly as long as the sum stays
    below [2^53]; above, the float is rounded, and beyond the range of
    floats the division raises [OverflowError].  The model is the code
    for widths that are sample counts ([sample_count] below, which every
    width extracted from a trace held in memory is); a statement about
    widths given from outside carries that bound. *)
Definition half_length_of (mn mx : Z) : Q := inject_Z (mn + mx) / 2.

(** [signal > half_length]: Python compares an int with a float by
    value, here with the value [half_length] has within the bound. *)
Definition longer_than (half_length : Q) (signal : Z) : bool :=
  negb (Qle_bool (inject_Z signal) half_length).

(** The body of [for signal in signals]. *)
Definition push_bit (half_length : Q) (bits signal : Z) : Z :=
  let bits := Z.shiftl bits 1 in
  if longer_than half_length signal then Z.lor bits 1 else bits.

Definition calculate_bits (signals : list Z) : Py.result (list Z) :=
  mn <- py_min signals ;;
  mx <- py_max signals ;;
  let half_length := half_length_of mn mx in
  let bits := fold_left (push_bit half_length) signals 0 in
  Py.ret [ Z.land (Z.shiftr bits 32) 255;
           Z.land (Z.shiftr bits 24) 255;
           Z.land (Z.shiftr bits 16) 255;
           Z.land (Z.shiftr bits 8) 255;
           Z.land bits 255 ].

(** *** __validate_checksum *)

Definition validate_checksum (bytes : list Z) : Py.result bool :=
  b4 <- Py.getitem bytes 4 ;;
  b0 <- Py.getitem bytes 0 ;;
  b1 <- Py.getitem bytes 1 ;;
  b2 <- Py.getitem bytes 2 ;;
  b3 <- Py.getitem bytes 3 ;;
  Py.ret (b4 =? Z.land (b0 + b1 + b2 + b3) 255).

(** *** read *)

(** Lines 290 to 300: the checksum test and the two values, from the five
    bytes. *)
Definition derive (bytes : list Z) : Py.result DHT11Response :=
  ok <- validate_checksum bytes ;;
  if negb ok then Py.raise Py.DHT11ChecksumError
  else
    b0 <- Py.getitem bytes 0 ;;
    b1 <- Py.getitem bytes 1 ;;
    let humidity :=
      Py.add (Py.PyInt b0) (Py.truediv (Py.PyInt b1) (Py.PyInt 10)) in
    b2 <- Py.getitem bytes 2 ;;
    b3 <- Py.getitem bytes 3 ;;
    let temperature :=
      Py.add (Py.PyInt b2)
             (Py.truediv (Py.PyInt (Z.land b3 127)) (Py.PyInt 10)) in
    b3' <- Py.getitem bytes 3 ;;
    let temperature :=
      if negb (Z.land b3' 128 =? 0) then Py.mul temperature (Py.PyInt (-1))
      else temperature in
    let status := STATUS_OK in
    Py.ret (Response status temperature humidity).

(** Lines 283 to 300: what one attempt does with the samples it
    collected. *)
Definition decode (input_data : list bool) : Py.result DHT11Response :=
  signals <- parse_input_data input_data ;;
  if negb (Z.of_nat (length signals) =? 40) then
    Py.raise Py.DHT11InvalidDataError
  else
    bytes <- calculate_bits signals ;;
    derive bytes.

(** How a call of [read] can end, as far as the supplied input shows:
    with a value, with an exception, or inside [__collect_input], which is
    still polling when the supplied levels run out. *)
Inductive outcome : Type :=
| Returned (r : DHT11Response)
| Raised (e : Py.exn)
| StillPolling.

(** [__send_signal(signal, timeout)]. *)
Definition send_signal (self : DHT11) (signal : bool) (timeout : Py.number)
    (w : world) : world :=
  emit (sleep timeout) (emit (output (signal_pin self) signal) w).

(** The calls one attempt makes before it starts polling (lines 274 to 279
    and the [GPIO.setup] of [__collect_input]). *)
Definition request (self : DHT11) (w : world) : world :=
  let w := emit (setup_out (signal_pin self) HIGH) w in
  let w := emit (sleep (Py.PyFloat 0.5)) w in
  let w := send_signal self HIGH (Py.PyFloat 0.05) w in
  let w := send_signal self LOW (Py.PyFloat 0.02) w in
  emit (setup_in (signal_pin self)) w.

(** The body of the [try]. *)
Definition attempt (self : DHT11) (w : world) : outcome * world :=
  let w := request self w in
  match collect_input (pin_input w) with
  | None => (StillPolling, World [] (log w))
  | Some (input_data, pin') =>
      let w := World pin' (log w) in
      match decode input_data with
      | inr r => (Returned r, w)
      | inl e => (Raised e, w)
      end
  end.

(** Lines 306 to 308. *)
Definition after_loop (self : DHT11) : outcome :=
  match raise_error self with
  | None => Raised Py.AttributeError
  | Some true => Raised Py.DHT11TimeoutError
  | Some false => Returned (Response_default STATUS_ERROR_TIMEOUT)
  end.

(** The [while] loop and what follows it.  Each iteration that comes back
    to the loop test has increased [try_count], so [max_tries - try_count]
    iterations are all there can be; [fuel] is an upper bound on them and
    the [O] branch is dead for the fuel [read] passes (see
    [read_loop_fuel]).  [time.sleep(self.min_interval)] is logged as a
    call that returns, which it does for a delay [time.sleep] accepts
    ([valid_delay] below); for a negative delay or NaN it raises
    [ValueError], for a delay too large [OverflowError], and a statement
    about a run that reaches line 304 carries [valid_delay]. *)
Fixpoint read_loop (fuel : nat) (self : DHT11) (try_count : Z) (w : world)
    : outcome * world :=
  if max_tries self >? try_count then
    match fuel with
    | O => (StillPolling, w)
    | S fuel' =>
        match attempt self w with
        | (Raised e, w') =>
            if Py.is_DHT11Error e then
              let try_count := try_count + 1 in
              let w' := emit (sleep (min_interval self)) w' in
              read_loop fuel' self try_count w'
            else (Raised e, w')
        | done => done
        end
    end
  else (after_loop self, w).

Definition read (self : DHT11) (w : world) : outcome * world :=
  let try_count := 0 in
  read_loop (Z.to_nat (max_tries self)) self try_count w.

(** * Specification vocabulary *)

(** ** Traces and the sampling loop *)

(** A trace holds a run of [unchanged_threshold] identical samples. *)
Definition stable_run (l : list bool) : Prop :=
  exists a v b, l = a ++ repeat v 200 ++ b.

(** The loop variables after the samples [p] have been read. *)
Definition poll (st : Z * Z) (x : bool) : Z * Z :=
  (if snd st =? code x then fst st + 1 else 1, code x).

Definition polled (c last : Z) (p : list bool) : Z * Z :=
  fold_left poll p (c, last).

(** The samples differ from [v] just before the final run (or there are
    none). *)
Definition ends_off (pre : list bool) (v : bool) : Prop :=
  pre = [] \/ exists pre', pre = pre' ++ [negb v].

(** Samples delivered one per poll: the first [n] of the levels [s]
    delivers. *)
Definition polls (s : nat -> bool) (n : nat) : list bool := map s (seq 0 n).

(** The line never stabilizes: no run of 200 identical polls ever
    occurs. *)
Definition never_stabilizes (s : nat -> bool) : Prop :=
  forall n, ~ stable_run (polls s n).

(** The line that changes at every poll. *)
Definition alternating : nat -> bool := Nat.even.

(** ** Markers and pulses *)

(** The levels [pat] occur in [l], in this order (not necessarily next to
    each other). *)
Fixpoint occurs_in_order (pat l : list bool) : Prop :=
  match pat with
  | [] => True
  | p :: pat' => exists a b, l = a ++ p :: b /\ occurs_in_order pat' b
  end.

(** The start-of-frame marker: a Low, later a High, later a Low. *)
Definition has_marker (data : list bool) : Prop :=
  occurs_in_order [LOW; HIGH; LOW] data.

(** What the first loop is still looking for in state [pattern]. *)
Definition pending (pattern : Z) : list bool :=
  if pattern =? 0 then [LOW; HIGH; LOW]
  else if pattern =? 1 then [HIGH; LOW]
  else [LOW].

(** A well-formed capture, run by run: the line idles High for [a]
    samples, the sensor answers [b] Low and [c] High samples, and the Low
    that follows closes the marker. *)
Definition start_marker (a b c : nat) : list bool :=
  repeat HIGH a ++ repeat LOW b ++ repeat HIGH c ++ [LOW].

(** One clean high-pulse: [w] High samples, ended by [g] Low samples. *)
Definition pulse (p : nat * nat) : list bool :=
  repeat HIGH (fst p) ++ repeat LOW (snd p).

(** Pulses one after the other, each given as (High samples, Low
    samples); a pulse is clean when both counts are positive, and its
    width is the first. *)
Definition pulse_train (ps : list (nat * nat)) : list bool :=
  flat_map pulse ps.

Definition clean (p : nat * nat) : Prop := (1 <= fst p)%nat /\ (1 <= snd p)%nat.

Definition widths (ps : list (nat * nat)) : list Z :=
  map (fun p => Z.of_nat (fst p)) ps.

(** Samples that leave the state of the first loop unchanged. *)
Definition idles (pattern : Z) (v : bool) : Prop :=
  (pattern = 0 /\ v = HIGH) \/ (pattern = 1 /\ v = LOW) \/
  (pattern = 2 /\ v = HIGH).

(** ** Bit patterns *)

(** A width that is a count of samples: not negative and below [2^52],
    so that the sum of two of them is below [2^53] and the threshold of
    line 217 is computed exactly. *)
Definition sample_count (w : Z) : bool := (0 <=? w) && (w <? 2 ^ 52).

(** The number a bit string denotes, most significant bit first. *)
Fixpoint bits_value (bs : list bool) : Z :=
  match bs with
  | [] => 0
  | b :: r => (if b then 2 ^ Z.of_nat (length r) else 0) + bits_value r
  end.

(** The five bytes of a 40-bit pattern, in transmission order: byte [k]
    is the number its bits [8k .. 8k+7] denote. *)
Definition pattern_bytes (bs : list bool) : list Z :=
  [ bits_value (firstn 8 bs);
    bits_value (firstn 8 (skipn 8 bs));
    bits_value (firstn 8 (skipn 16 bs));
    bits_value (firstn 8 (skipn 24 bs));
    bits_value (firstn 8 (skipn 32 bs)) ].

(** The least and the greatest width of a list. *)
Definition is_min (m : Z) (l : list Z) : Prop :=
  In m l /\ Forall (fun w => m <= w) l.

Definition is_max (m : Z) (l : list Z) : Prop :=
  In m l /\ Forall (fun w => w <= m) l.

(** A width and the bit it stands for, on either side of [threshold]. *)
Definition separated (threshold : Q) (w : Z) (b : bool) : Prop :=
  if b then (threshold < inject_Z w)%Q else (inject_Z w < threshold)%Q.

(** ** Frames *)

Definition byte (z : Z) : Prop := 0 <= z < 256.

(** The two values as section 4.4 words them, on floats: integer part
    plus tenths, the temperature negated when the sign flag is set. *)
Definition humidity_of (b0 b1 : Z) : float :=
  (Py.float_of_int b0 + Py.float_of_int b1 / 10)%float.

Definition temperature_of (b2 b3 : Z) : float :=
  let t := (Py.float_of_int b2 + Py.float_of_int (Z.land b3 127) / 10)%float in
  if Z.land b3 128 =? 0 then t else (- t)%float.

(** What [derive] computes for the temperature, as a function of the two
    bytes. *)
Definition temperature_code (b2 b3 : Z) : Py.number :=
  let temperature :=
    Py.add (Py.PyInt b2)
           (Py.truediv (Py.PyInt (Z.land b3 127)) (Py.PyInt 10)) in
  if negb (Z.land b3 128 =? 0) then Py.mul temperature (Py.PyInt (-1))
  else temperature.

(** The integers [0 .. n-1]. *)
Definition below (n : nat) : list Z := map Z.of_nat (seq 0 n).

(** The test that multiplying by [-1] negates the temperature made of the
    integer part [b2] and [d] tenths. *)
Definition negates (b2 d : Z) : bool :=
  let t := (Py.float_of_int b2 + Py.float_of_int d / 10)%float in
  PrimFloat.Leibniz.eqb (t * Py.float_of_int (-1))%float (- t)%float.

(** ** Attempts and their log *)


(** The samples of one complete acquisition: the sampling loop reads all
    of [t] and stops there. *)
Definition capture (t : list bool) : Prop := collect_input t = Some (t, []).

(** A capture whose decoding raises one of the module's own errors. *)
Definition failed_capture (t : list bool) : Prop :=
  capture t /\ exists e, decode t = inl e /\ Py.is_DHT11Error e = true.

(** The calls of one attempt up to the polling. *)
Definition request_events (self : DHT11) : list event :=
  [ setup_out (signal_pin self) HIGH; sleep (Py.PyFloat 0.5);
    output (signal_pin self) HIGH; sleep (Py.PyFloat 0.05);
    output (signal_pin self) LOW; sleep (Py.PyFloat 0.02);
    setup_in (signal_pin self) ].

(** The calls of an attempt that fails: the request, then the delay of
    the [except] clause. *)
Definition failed_attempt_events (self : DHT11) : list event :=
  request_events self ++ [sleep (min_interval self)].

Definition is_setup_out (e : event) : bool :=
  match e with setup_out _ _ => true | _ => false end.


(** The number of attempts a log shows (each starts with the one
    [GPIO.setup(..., GPIO.OUT, ...)]) and the number of [time.sleep]
    calls. *)
Definition attempts (l : list event) : nat := length (filter is_setup_out l).

(** ** Example inputs *)

(** The eight bits of a byte, most significant first. *)
Definition bits_of_byte (b : Z) : list bool :=
  map (fun i => Z.testbit b (Z.of_nat i)) [7; 6; 5; 4; 3; 2; 1; 0]%nat.

(** Pulses for a frame: 3 samples High for a 0, 7 for a 1, 5 samples Low
    after each. *)
Definition frame_pulses (bytes : list Z) : list (nat * nat) :=
  map (fun b : bool => (if b then 7%nat else 3%nat, 5%nat))
      (flat_map bits_of_byte bytes).

(** A whole capture of a frame, ending with the line idle High. *)
Definition frame_capture (bytes : list Z) : list bool :=
  start_marker 5 8 8 ++ repeat LOW 4 ++ pulse_train (frame_pulses bytes) ++
  repeat HIGH 200.

(** The capture of a line that stays High: no marker, no pulse. *)
Definition idle_capture : list bool := repeat HIGH 200.

Definition example_sensor : DHT11 := DHT11_init 26 10 MIN_INTERVAL false.

(** ** Further vocabulary *)

(** The sum of a list of widths. *)
Definition list_sum (l : list Z) : Z := fold_right Z.add 0 l.

(** The loop variables describe the end of the trace so far: nothing read
    yet, or a run of [k] samples [v], at most 200, after samples that end
    on the other level. *)
Definition tracks (c last : Z) (data : list bool) : Prop :=
  (c = 0 /\ last = -1 /\ data = []) \/
  exists pre v k,
    c = Z.of_nat k /\ (1 <= k <= 200)%nat /\ last = code v /\
    data = pre ++ repeat v k /\ ends_off pre v.

(** The widths a transmitter gives the bits: [s] samples for a 0 and [l]
    samples for a 1. *)
Definition encode_widths (s l : Z) (bits : list bool) : list Z :=
  map (fun b : bool => if b then l else s) bits.

(** The pulses of a bit string, each followed by [g] Low samples. *)
Definition bit_pulses (s l g : nat) (bits : list bool) : list (nat * nat) :=
  map (fun b : bool => (if b then l else s, g)) bits.

(** The samples of an ideal transmission of [bytes]: the marker, [g0]
    further Low samples, the 40 pulses, and the line idle High for 200
    samples. *)
Definition waveform (a b c g0 s l g : nat) (bytes : list Z) : list bool :=
  start_marker a b c ++ repeat LOW g0 ++
  pulse_train (bit_pulses s l g (flat_map bits_of_byte bytes)) ++
  repeat HIGH 200.

(** The tests behind two facts about the eight bits of a byte. *)
Definition bits_round_trip (b : Z) : bool :=
  bits_value (bits_of_byte b) =? b.

Definition has_zero_bit (b : Z) : bool :=
  (b =? 255) || existsb negb (bits_of_byte b).

(** Where the first loop of the extractor breaks, counted from the
    sample it starts on in state [pattern], if it does. *)
Fixpoint break_index (pattern : Z) (l : list bool) : option nat :=
  match l with
  | [] => None
  | d :: r =>
      let pattern := if (pattern =? 0) && Bool.eqb d LOW then 1 else pattern in
      let pattern := if (pattern =? 1) && Bool.eqb d HIGH then 2 else pattern in
      if (pattern =? 2) && Bool.eqb d LOW then Some 0%nat
      else option_map S (break_index pattern r)
  end.

(** * Proofs *)

(** ** The sampling loop *)

Section Sampling.

Lemma stable_run_app_l (p l : list bool) :
  stable_run l -> stable_run (p ++ l).
Proof.
  intros (a & v & b & ->). exists (p ++ a), v, b. now rewrite app_assoc.
Qed.

Lemma code_inj (x y : bool) : code x = code y -> x = y.
Proof. destruct x, y; cbn; congruence. Qed.

Lemma code_not_initial (x : bool) : -1 <> code x.
Proof. destruct x; cbn; lia. Qed.

(** One iteration, when the loop condition holds. *)
Lemma collect_loop_step (c last : Z) (data : list bool) (x : bool)
    (pin : list bool) :
  c < 200 ->
  collect_loop c last data (x :: pin) =
  collect_loop (if last =? code x then c + 1 else 1)
               (code x) (data ++ [x]) pin.
Proof.
  intros Hc. cbn [collect_loop]. unfold unchanged_threshold.
  destruct (Z.ltb_spec c 200) as [_|]; [|lia].
  destruct (Z.eqb_spec last (code x)) as [->|]; reflexivity.
Qed.

Lemma collect_loop_stop (c last : Z) (data pin : list bool) :
  200 <= c -> collect_loop c last data pin = Some (data, pin).
Proof.
  intros Hc. destruct pin; cbn [collect_loop]; unfold unchanged_threshold;
    destruct (Z.ltb_spec c 200); (lia || reflexivity).
Qed.

Lemma collect_loop_nil (c last : Z) (data : list bool) :
  c < 200 -> collect_loop c last data [] = None.
Proof.
  intros Hc. cbn. unfold unchanged_threshold.
  destruct (Z.ltb_spec c 200); (lia || reflexivity).
Qed.

(** While no run of 200 has been seen the loop keeps polling: [k] is the
    length of the run of [v] the samples read so far end with. *)
Lemma collect_loop_running (l : list bool) :
  forall (k : nat) (v : bool) (last : Z) (data : list bool),
    (k < 200)%nat ->
    last = code v \/ k = 0%nat ->
    ~ stable_run (repeat v k ++ l) ->
    collect_loop (Z.of_nat k) last data l = None.
Proof.
  induction l as [|x l IH]; intros k v last data Hk Hlast Hrun.
  - apply collect_loop_nil. lia.
  - rewrite collect_loop_step by lia.
    destruct (Z.eqb_spec last (code x)) as [E|E].
    + destruct Hlast as [->| ->].
      * apply code_inj in E. subst x.
        replace (Z.of_nat k + 1) with (Z.of_nat (S k)) by lia.
        assert (Hrun' : ~ stable_run (repeat v (S k) ++ l)).
        { intros H. apply Hrun.
          replace (repeat v k ++ v :: l) with (repeat v (S k) ++ l); [exact H|].
          change (repeat v (S k)) with (v :: repeat v k).
          rewrite repeat_cons, <- app_assoc. reflexivity. }
        apply (IH (S k) v); auto.
        destruct (Nat.eq_dec (S k) 200) as [E|]; [|lia].
        exfalso. apply Hrun'. rewrite E. exists [], v, l. reflexivity.
      * apply (IH 1%nat x); auto. lia.
    + apply (IH 1%nat x); auto; [lia|].
      intros H. apply Hrun.
      apply (stable_run_app_l (repeat v k)) in H. exact H.
Qed.

(** The loop never stops before it has seen a run of 200. *)
Lemma collect_input_running (l : list bool) :
  ~ stable_run l -> collect_input l = None.
Proof.
  intros H. apply (collect_loop_running l 0 false); auto. lia.
Qed.

(** Every sample read is appended, and nothing else is. *)
Lemma collect_loop_consumes (l : list bool) :
  forall c last data d r,
    collect_loop c last data l = Some (d, r) -> d ++ r = data ++ l.
Proof.
  induction l as [|x l IH]; intros c last data d r H.
  - destruct (Z.lt_ge_cases c 200) as [Hc|Hc].
    + rewrite collect_loop_nil in H by exact Hc. discriminate.
    + rewrite collect_loop_stop in H by exact Hc. now inversion H.
  - destruct (Z.lt_ge_cases c 200) as [Hc|Hc].
    + rewrite collect_loop_step in H by exact Hc.
      apply IH in H. rewrite H, <- app_assoc. reflexivity.
    + rewrite collect_loop_stop in H by exact Hc. now inversion H.
Qed.

(** Once the loop has stopped, later samples are left unread. *)
Lemma collect_loop_some_app (l : list bool) :
  forall c last data d r q,
    collect_loop c last data l = Some (d, r) ->
    collect_loop c last data (l ++ q) = Some (d, r ++ q).
Proof.
  induction l as [|x l IH]; intros c last data d r q H.
  - destruct (Z.lt_ge_cases c 200) as [Hc|Hc].
    + rewrite collect_loop_nil in H by exact Hc. discriminate.
    + rewrite collect_loop_stop in * by exact Hc. now inversion H.
  - destruct (Z.lt_ge_cases c 200) as [Hc|Hc].
    + cbn [app]. rewrite collect_loop_step in * by exact Hc.
      now apply IH.
    + rewrite collect_loop_stop in * by exact Hc. now inversion H.
Qed.

Lemma collect_loop_app (p : list bool) :
  forall c last data q,
    collect_loop c last data p = None ->
    fst (polled c last p) < 200 /\
    collect_loop c last data (p ++ q) =
    collect_loop (fst (polled c last p)) (snd (polled c last p))
                 (data ++ p) q.
Proof.
  induction p as [|x p IH]; intros c last data q H;
    destruct (Z.lt_ge_cases c 200) as [Hc|Hc];
    try (rewrite collect_loop_stop in H by exact Hc; discriminate).
  - cbn. rewrite app_nil_r. auto.
  - rewrite collect_loop_step in H by exact Hc.
    cbn [app]. rewrite collect_loop_step by exact Hc.
    destruct (IH _ _ _ q H) as [Hlt Heq].
    unfold polled in *. cbn [fold_left]. unfold poll at 2 4 6. cbn [fst snd].
    rewrite Heq, <- app_assoc. auto.
Qed.

Lemma polled_last (c last : Z) (p : list bool) (x : bool) :
  snd (polled c last (p ++ [x])) = code x.
Proof. unfold polled. rewrite fold_left_app. reflexivity. Qed.

(** A run that has reached length [c] stops the loop after [200 - c]
    further identical samples. *)
Lemma collect_loop_finish (n : nat) :
  forall c v data rest,
    c + Z.of_nat n = 200 ->
    collect_loop c (code v) data (repeat v n ++ rest) =
    Some (data ++ repeat v n, rest).
Proof.
  induction n as [|n IH]; intros c v data rest Hc.
  - cbn [repeat app]. rewrite app_nil_r. apply collect_loop_stop. lia.
  - cbn [repeat app]. rewrite collect_loop_step by lia.
    rewrite Z.eqb_refl, IH by lia. rewrite <- app_assoc. reflexivity.
Qed.

Lemma collect_loop_new_run (c last : Z) (v : bool) (data rest : list bool) :
  c < 200 -> last <> code v ->
  collect_loop c last data (repeat v 200 ++ rest) =
  Some (data ++ repeat v 200, rest).
Proof.
  intros Hc Hl. change (repeat v 200) with (v :: repeat v 199).
  cbn [app]. rewrite collect_loop_step by exact Hc.
  destruct (Z.eqb_spec last (code v)) as [E|_]; [contradiction|].
  rewrite collect_loop_finish by reflexivity.
  rewrite <- app_assoc. reflexivity.
Qed.

Lemma collect_input_stable (pre : list bool) (v : bool) (rest : list bool) :
  ~ stable_run pre -> ends_off pre v ->
  collect_input (pre ++ repeat v 200 ++ rest) =
  Some (pre ++ repeat v 200, rest).
Proof.
  intros Hrun Hend. unfold collect_input.
  destruct (collect_loop_app pre 0 (-1) [] (repeat v 200 ++ rest)
              (collect_input_running pre Hrun)) as [Hlt ->].
  cbn [app]. apply collect_loop_new_run; [exact Hlt|].
  destruct Hend as [->|[pre' ->]].
  - cbn. apply code_not_initial.
  - rewrite polled_last. destruct v; cbn; lia.
Qed.

Lemma stable_run_adjacent (l : list bool) :
  stable_run l ->
  exists i v, nth_error l i = Some v /\ nth_error l (S i) = Some v.
Proof.
  intros (a & v & b & ->). exists (length a), v.
  change (repeat v 200) with ([v] ++ [v] ++ repeat v 198).
  split.
  - rewrite nth_error_app2, Nat.sub_diag by lia. reflexivity.
  - rewrite nth_error_app2 by lia.
    replace (S (length a) - length a)%nat with 1%nat by lia. reflexivity.
Qed.

Lemma alternating_never_stabilizes : never_stabilizes alternating.
Proof.
  intros n H. apply stable_run_adjacent in H.
  destruct H as (i & v & H1 & H2). unfold polls in *.
  rewrite nth_error_map in H1, H2.
  destruct (nth_error (seq 0 n) i) as [x|] eqn:Ex; [|discriminate].
  destruct (nth_error (seq 0 n) (S i)) as [y|] eqn:Ey; [|discriminate].
  assert (Hi : (i < n)%nat).
  { rewrite <- (length_seq n 0). apply nth_error_Some. congruence. }
  assert (HSi : (S i < n)%nat).
  { rewrite <- (length_seq n 0). apply nth_error_Some. congruence. }
  apply nth_error_nth with (d := 0%nat) in Ex, Ey.
  rewrite seq_nth in Ex, Ey by lia. subst x y.
  cbn [option_map Nat.add] in H1, H2. unfold alternating in *.
  rewrite Nat.even_succ, <- Nat.negb_even in H2.
  inversion H1 as [E1]. inversion H2 as [E2]. rewrite E1 in E2.
  destruct v; discriminate.
Qed.

End Sampling.

(** ** The pulse extractor *)

Section Parsing.

Lemma occurs_in_order_cons (pat l : list bool) (x : bool) :
  occurs_in_order pat l -> occurs_in_order pat (x :: l).
Proof.
  destruct pat as [|p pat]; [trivial|].
  intros (a & b & -> & H). exists (x :: a), b. auto.
Qed.

Lemma occurs_in_order_here (pat l : list bool) (x : bool) :
  occurs_in_order pat l -> occurs_in_order (x :: pat) (x :: l).
Proof. intros H. exists [], l. auto. Qed.

(** Without the pending levels ahead, the first loop runs to the end of
    the samples and leaves [i] at the last index. *)
Lemma find_beginning_no_break (rest : list bool) :
  forall pattern i k,
    pattern = 0 \/ pattern = 1 \/ pattern = 2 ->
    ~ occurs_in_order (pending pattern) rest ->
    rest <> [] ->
    find_beginning pattern i k rest = Some (k + length rest - 1)%nat.
Proof.
  induction rest as [|x rest IH]; intros pattern i k Hp Hno Hne;
    [congruence|].
  assert (Hlast : rest = [] ->
                  Some k = Some (k + length (x :: rest) - 1)%nat).
  { intros ->. cbn. f_equal. lia. }
  assert (Hnext : forall p,
             p = 0 \/ p = 1 \/ p = 2 ->
             ~ occurs_in_order (pending p) rest ->
             find_beginning p (Some k) (S k) rest =
             Some (k + length (x :: rest) - 1)%nat).
  { intros p Hp' Hno'. destruct rest as [|y rest'] eqn:E.
    - now apply Hlast.
    - rewrite IH by (auto; congruence). cbn [length]. f_equal. lia. }
  cbn [find_beginning].
  destruct Hp as [->|[->| ->]]; destruct x; cbn.
  - apply Hnext; auto. intros H. apply Hno.
    now apply occurs_in_order_cons.
  - apply Hnext; auto. intros H. apply Hno.
    now apply (occurs_in_order_here [HIGH; LOW]).
  - apply Hnext; auto. intros H. apply Hno.
    now apply (occurs_in_order_here [LOW]).
  - apply Hnext; auto. intros H. apply Hno.
    now apply (occurs_in_order_cons [HIGH; LOW]).
  - apply Hnext; auto. intros H. apply Hno.
    now apply (occurs_in_order_cons [LOW]).
  - exfalso. apply Hno. now apply (occurs_in_order_here []).
Qed.

(** On samples that are not empty and hold no marker, the extractor
    returns no width. *)
Lemma parse_input_data_no_marker (data : list bool) :
  data <> [] -> ~ has_marker data -> parse_input_data data = inr [].
Proof.
  intros Hne Hno. unfold parse_input_data.
  rewrite (find_beginning_no_break data 0 None 0) by auto.
  destruct (Nat.leb_spec (length data) (0 + length data - 1)); [reflexivity|].
  assert (Hlen : (length data <> 0)%nat)
    by (destruct data; cbn; congruence).
  destruct (skipn (0 + length data - 1) data) as [|y [|z tl]] eqn:E.
  - reflexivity.
  - destruct y; reflexivity.
  - apply (f_equal (@length bool)) in E. rewrite length_skipn in E.
    cbn in E. lia.
Qed.


Lemma find_beginning_idle (n : nat) :
  forall pattern v i k l,
    idles pattern v ->
    exists i',
      find_beginning pattern i k (repeat v n ++ l) =
      find_beginning pattern i' (k + n)%nat l.
Proof.
  induction n as [|n IH]; intros pattern v i k l Hid.
  - exists i. now rewrite Nat.add_0_r.
  - destruct (IH pattern v (Some k) (S k) l Hid) as [i' E].
    exists i'. replace (k + S n)%nat with (S k + n)%nat by lia.
    rewrite <- E.
    destruct Hid as [[-> ->]|[[-> ->]|[-> ->]]]; reflexivity.
Qed.

Lemma find_beginning_low (i : option nat) (k : nat) (l : list bool) :
  find_beginning 0 i k (LOW :: l) = find_beginning 1 (Some k) (S k) l.
Proof. reflexivity. Qed.

Lemma find_beginning_high (i : option nat) (k : nat) (l : list bool) :
  find_beginning 1 i k (HIGH :: l) = find_beginning 2 (Some k) (S k) l.
Proof. reflexivity. Qed.

Lemma find_beginning_break (i : option nat) (k : nat) (l : list bool) :
  find_beginning 2 i k (LOW :: l) = Some k.
Proof. reflexivity. Qed.

Lemma find_beginning_marker (a b c : nat) (body : list bool) :
  (1 <= b)%nat -> (1 <= c)%nat ->
  find_beginning 0 None 0 (start_marker a b c ++ body) =
  Some (a + b + c)%nat.
Proof.
  intros Hb Hc. unfold start_marker.
  destruct b as [|b]; [lia|]. destruct c as [|c]; [lia|].
  rewrite <- !app_assoc.
  destruct (find_beginning_idle a 0 HIGH None 0%nat
              (repeat LOW (S b) ++ repeat HIGH (S c) ++ [LOW] ++ body))
    as [i1 ->]; [left; auto|].
  cbn [repeat app]. rewrite find_beginning_low.
  destruct (find_beginning_idle b 1 LOW (Some (0 + a)%nat) (S (0 + a))
              (HIGH :: repeat HIGH c ++ LOW :: body))
    as [i2 ->]; [right; left; auto|].
  rewrite find_beginning_high.
  destruct (find_beginning_idle c 2 HIGH (Some (S (0 + a) + b)%nat)
              (S (S (0 + a) + b)) (LOW :: body))
    as [i3 ->]; [right; right; auto|].
  rewrite find_beginning_break. f_equal. lia.
Qed.

Lemma measure_high_low (g : nat) (signals : list Z) (l : list bool) :
  measure_high 0 signals (repeat LOW g ++ l) = measure_high 0 signals l.
Proof. induction g as [|g IH]; [reflexivity|exact IH]. Qed.

Lemma measure_high_high (w : nat) :
  forall h signals l,
    measure_high h signals (repeat HIGH w ++ l) =
    measure_high (h + Z.of_nat w) signals l.
Proof.
  induction w as [|w IH]; intros h signals l.
  - now rewrite Z.add_0_r.
  - cbn [repeat app measure_high Bool.eqb HIGH]. rewrite IH. f_equal. lia.
Qed.

Lemma measure_high_pulse (p : nat * nat) (signals : list Z) (l : list bool) :
  clean p ->
  measure_high 0 signals (pulse p ++ l) =
  measure_high 0 (signals ++ [Z.of_nat (fst p)]) l.
Proof.
  intros [Hw Hg]. unfold pulse. destruct p as [w g]. cbn [fst snd] in *.
  rewrite <- app_assoc, measure_high_high.
  destruct g as [|g]; [lia|]. cbn [repeat app measure_high Bool.eqb LOW HIGH].
  destruct (Z.gtb_spec (0 + Z.of_nat w) 0); [|lia].
  now rewrite measure_high_low.
Qed.

Lemma measure_high_train (ps : list (nat * nat)) :
  forall signals l,
    Forall clean ps ->
    measure_high 0 signals (pulse_train ps ++ l) =
    measure_high 0 (signals ++ widths ps) l.
Proof.
  induction ps as [|p ps IH]; intros signals l Hc.
  - cbn. now rewrite app_nil_r.
  - inversion Hc as [|? ? Hp Hps]; subst.
    cbn [pulse_train flat_map]. rewrite <- app_assoc.
    rewrite measure_high_pulse by exact Hp.
    fold (pulse_train ps). rewrite IH by exact Hps.
    unfold widths. cbn [map]. now rewrite <- app_assoc.
Qed.

(** The extractor on a marker, further Low samples, any number of clean
    pulses and an unfinished High run: the widths of the pulses. *)
Lemma parse_input_data_train (a b c g0 m : nat) (ps : list (nat * nat)) :
  (1 <= b)%nat -> (1 <= c)%nat -> Forall clean ps ->
  parse_input_data
    (start_marker a b c ++ repeat LOW g0 ++ pulse_train ps ++ repeat HIGH m) =
  inr (widths ps).
Proof.
  intros Hb Hc Hps. unfold parse_input_data.
  rewrite find_beginning_marker by assumption.
  set (body := repeat LOW g0 ++ pulse_train ps ++ repeat HIGH m).
  assert (Hskip : skipn (a + b + c) (start_marker a b c ++ body) =
                  LOW :: body).
  { unfold start_marker.
    replace (repeat HIGH a ++ repeat LOW b ++ repeat HIGH c ++ [LOW])
      with ((repeat HIGH a ++ repeat LOW b ++ repeat HIGH c) ++ [LOW])
      by (now rewrite <- !app_assoc).
    rewrite <- app_assoc. rewrite skipn_app.
    rewrite !length_app, !repeat_length.
    rewrite skipn_all2 by (rewrite !length_app, !repeat_length; lia).
    replace (a + b + c - (a + (b + c)))%nat with 0%nat by lia.
    reflexivity. }
  rewrite Hskip.
  destruct (Nat.leb_spec (length (start_marker a b c ++ body)) (a + b + c))
    as [Hle|_].
  - unfold start_marker in Hle.
    rewrite !length_app, !repeat_length in Hle. cbn [length] in Hle. lia.
  - unfold Py.ret. f_equal.
    change (measure_high 0 [] (LOW :: body))
      with (measure_high 0 [] (repeat LOW 1 ++ body)).
    rewrite measure_high_low. unfold body.
    rewrite measure_high_low, measure_high_train by exact Hps.
    rewrite <- (app_nil_r (repeat HIGH m)), measure_high_high.
    reflexivity.
Qed.

End Parsing.

(** ** The bit decoder *)

Section Decoding.

Lemma longer_than_spec (t : Q) (w : Z) :
  longer_than t w = true <-> (t < inject_Z w)%Q.
Proof.
  unfold longer_than. rewrite negb_true_iff.
  destruct (Qle_bool (inject_Z w) t) eqn:E.
  - apply Qle_bool_iff in E. split; [discriminate|].
    intros H. exfalso. now apply (Qle_not_lt _ _ E).
  - split; [intros _|reflexivity].
    apply Qnot_le_lt. intros H. apply Qle_bool_iff in H. congruence.
Qed.

Lemma fold_min_spec (r : list Z) :
  forall x, is_min (fold_left Z.min r x) (x :: r).
Proof.
  induction r as [|y r IH]; intros x.
  - split; [now left|repeat constructor; cbn; lia].
  - cbn [fold_left]. destruct (IH (Z.min x y)) as [Hin Hall].
    inversion Hall as [|? ? Hhd Htl]; subst. split.
    + destruct Hin as [E|Hin]; [|now right; right].
      rewrite <- E. destruct (Z.min_spec x y) as [[_ ->]|[_ ->]];
        [now left|now right; left].
    + repeat constructor; [lia|lia|exact Htl].
Qed.

Lemma fold_max_spec (r : list Z) :
  forall x, is_max (fold_left Z.max r x) (x :: r).
Proof.
  induction r as [|y r IH]; intros x.
  - split; [now left|repeat constructor; cbn; lia].
  - cbn [fold_left]. destruct (IH (Z.max x y)) as [Hin Hall].
    inversion Hall as [|? ? Hhd Htl]; subst. split.
    + destruct Hin as [E|Hin]; [|now right; right].
      rewrite <- E. destruct (Z.max_spec x y) as [[_ ->]|[_ ->]];
        [now right; left|now left].
    + repeat constructor; [lia|lia|exact Htl].
Qed.

Lemma bits_value_bounds (bs : list bool) :
  0 <= bits_value bs < 2 ^ Z.of_nat (length bs).
Proof.
  induction bs as [|b bs IH]; [cbn; lia|].
  cbn [bits_value length]. rewrite Nat2Z.inj_succ, Z.pow_succ_r by lia.
  destruct b; lia.
Qed.

Lemma bits_value_app (l1 l2 : list bool) :
  bits_value (l1 ++ l2) =
  bits_value l1 * 2 ^ Z.of_nat (length l2) + bits_value l2.
Proof.
  induction l1 as [|b l1 IH]; [cbn; lia|].
  cbn [app bits_value]. rewrite IH, length_app, Nat2Z.inj_add.
  rewrite Z.pow_add_r by lia. destruct b; lia.
Qed.

Lemma shift_in_one (bits : Z) : Z.lor (Z.shiftl bits 1) 1 = 2 * bits + 1.
Proof.
  rewrite Z.shiftl_mul_pow2 by lia. change (2 ^ 1) with 2.
  assert (H : Z.land (bits * 2) 1 = 0).
  { change 1 with (Z.ones 1). rewrite Z.land_ones by lia.
    change (2 ^ 1) with 2. apply Z.mod_mul. lia. }
  pose proof (Z.add_lor_land (bits * 2) 1) as E. lia.
Qed.

Lemma push_bit_value (t : Q) (bits w : Z) :
  push_bit t bits w = 2 * bits + bits_value [longer_than t w].
Proof.
  unfold push_bit. cbn [bits_value length]. destruct (longer_than t w).
  - rewrite shift_in_one. change (2 ^ Z.of_nat 0) with 1. lia.
  - rewrite Z.shiftl_mul_pow2 by lia. change (2 ^ 1) with 2. lia.
Qed.

(** The accumulator after the loop is the number the bits denote. *)
Lemma fold_push_bit (t : Q) (ws : list Z) :
  forall bits,
    fold_left (push_bit t) ws bits =
    bits * 2 ^ Z.of_nat (length ws) + bits_value (map (longer_than t) ws).
Proof.
  induction ws as [|w ws IH]; intros bits; [cbn; lia|].
  cbn [fold_left map]. rewrite IH, push_bit_value.
  change (longer_than t w :: map (longer_than t) ws)
    with ([longer_than t w] ++ map (longer_than t) ws).
  rewrite bits_value_app, length_map. cbn [length].
  rewrite Nat2Z.inj_succ, Z.pow_succ_r by lia. lia.
Qed.

Lemma bits_value_split (n : nat) (bs : list bool) :
  (n <= length bs)%nat ->
  bits_value bs =
  bits_value (firstn n bs) * 2 ^ Z.of_nat (length bs - n) +
  bits_value (skipn n bs).
Proof.
  intros Hn. rewrite <- (firstn_skipn n bs) at 1.
  rewrite bits_value_app, length_skipn. reflexivity.
Qed.

Lemma byte_bounds (n : nat) (bs : list bool) :
  0 <= bits_value (firstn 8 (skipn n bs)) < 256.
Proof.
  pose proof (bits_value_bounds (firstn 8 (skipn n bs))) as H.
  assert (Hl : (length (firstn 8 (skipn n bs)) <= 8)%nat)
    by apply firstn_le_length.
  assert (2 ^ Z.of_nat (length (firstn 8 (skipn n bs))) <= 2 ^ 8)
    by (apply Z.pow_le_mono_r; lia).
  change (2 ^ 8) with 256 in *. lia.
Qed.

(** The five bytes read off a 40-bit value are the numbers of its five
    groups of eight bits. *)
Lemma bytes_of_pattern (bs : list bool) :
  length bs = 40%nat ->
  [ Z.land (Z.shiftr (bits_value bs) 32) 255;
    Z.land (Z.shiftr (bits_value bs) 24) 255;
    Z.land (Z.shiftr (bits_value bs) 16) 255;
    Z.land (Z.shiftr (bits_value bs) 8) 255;
    Z.land (bits_value bs) 255 ] = pattern_bytes bs.
Proof.
  intros Hlen. unfold pattern_bytes.
  pose proof (bits_value_split 8 bs ltac:(lia)) as H0.
  pose proof (bits_value_split 8 (skipn 8 bs)
                ltac:(rewrite length_skipn; lia)) as H1.
  pose proof (bits_value_split 8 (skipn 16 bs)
                ltac:(rewrite length_skipn; lia)) as H2.
  pose proof (bits_value_split 8 (skipn 24 bs)
                ltac:(rewrite length_skipn; lia)) as H3.
  rewrite !skipn_skipn in *. cbn [Nat.add] in *.
  rewrite !length_skipn, Hlen in *.
  assert (H4 : firstn 8 (skipn 32 bs) = skipn 32 bs)
    by (apply firstn_all2; rewrite length_skipn; lia).
  pose proof (byte_bounds 0 bs) as B0. cbn [skipn] in B0.
  pose proof (byte_bounds 8 bs) as B1.
  pose proof (byte_bounds 16 bs) as B2.
  pose proof (byte_bounds 24 bs) as B3.
  pose proof (byte_bounds 32 bs) as B4. rewrite H4 in *.
  change (Z.of_nat (40 - 8)) with 32 in *.
  change (Z.of_nat (40 - 8 - 8)) with 24 in *.
  change (Z.of_nat (40 - 16 - 8)) with 16 in *.
  change (Z.of_nat (40 - 24 - 8)) with 8 in *.
  set (v := bits_value bs) in *.
  set (a0 := bits_value (firstn 8 bs)) in *.
  set (a1 := bits_value (firstn 8 (skipn 8 bs))) in *.
  set (a2 := bits_value (firstn 8 (skipn 16 bs))) in *.
  set (a3 := bits_value (firstn 8 (skipn 24 bs))) in *.
  set (a4 := bits_value (skipn 32 bs)) in *.
  set (r1 := bits_value (skipn 8 bs)) in *.
  set (r2 := bits_value (skipn 16 bs)) in *.
  set (r3 := bits_value (skipn 24 bs)) in *.
  change 255 with (Z.ones 8). rewrite !Z.land_ones by lia.
  rewrite !Z.shiftr_div_pow2 by lia.
  change (2 ^ 32) with 4294967296 in *. change (2 ^ 24) with 16777216 in *.
  change (2 ^ 16) with 65536 in *. change (2 ^ 8) with 256 in *.
  repeat f_equal; Z.to_euclidean_division_equations; lia.
Qed.

Lemma calculate_bits_pattern (signals : list Z) :
  length signals = 40%nat ->
  exists mn mx,
    is_min mn signals /\ is_max mx signals /\
    calculate_bits signals =
    inr (pattern_bytes (map (longer_than (half_length_of mn mx)) signals)).
Proof.
  intros Hlen. destruct signals as [|x r]; [discriminate|].
  exists (fold_left Z.min r x), (fold_left Z.max r x).
  split; [apply fold_min_spec|]. split; [apply fold_max_spec|].
  unfold calculate_bits, py_min, py_max, Py.bind, Py.ret.
  rewrite fold_push_bit, Z.mul_0_l, Z.add_0_l.
  rewrite bytes_of_pattern by (now rewrite length_map).
  reflexivity.
Qed.

Lemma separated_pattern (t : Q) (signals : list Z) (pattern : list bool) :
  Forall2 (separated t) signals pattern ->
  map (longer_than t) signals = pattern.
Proof.
  induction 1 as [|w b ws bs Hsep _ IH]; [reflexivity|].
  cbn [map]. rewrite IH. f_equal. destruct b; cbn in Hsep.
  - now apply longer_than_spec.
  - destruct (longer_than t w) eqn:E; [|reflexivity].
    apply longer_than_spec in E. exfalso.
    apply (Qlt_irrefl t). now apply Qlt_trans with (inject_Z w).
Qed.

End Decoding.

(** ** The frame validator *)

Section Validating.

Lemma validate_checksum_frame (b0 b1 b2 b3 b4 : Z) :
  validate_checksum [b0; b1; b2; b3; b4] =
  inr (b4 =? Z.land (b0 + b1 + b2 + b3) 255).
Proof. reflexivity. Qed.

Lemma land_255 (z : Z) : Z.land z 255 = z mod 256.
Proof. change 255 with (Z.ones 8). now rewrite Z.land_ones by lia. Qed.

Lemma checksum_accepts_iff (b0 b1 b2 b3 b4 : Z) :
  validate_checksum [b0; b1; b2; b3; b4] = inr true <->
  b4 = (b0 + b1 + b2 + b3) mod 256.
Proof.
  rewrite validate_checksum_frame, land_255. split.
  - intros H. inversion H as [E]. now apply Z.eqb_eq.
  - intros ->. now rewrite Z.eqb_refl.
Qed.

Lemma derive_accepted (b0 b1 b2 b3 b4 : Z) :
  validate_checksum [b0; b1; b2; b3; b4] = inr true ->
  derive [b0; b1; b2; b3; b4] =
  inr (Response STATUS_OK (temperature_code b2 b3)
         (Py.PyFloat (humidity_of b0 b1))).
Proof.
  intros H. unfold derive. rewrite H. reflexivity.
Qed.

Lemma derive_rejected (b0 b1 b2 b3 b4 : Z) :
  validate_checksum [b0; b1; b2; b3; b4] = inr false ->
  derive [b0; b1; b2; b3; b4] = inl Py.DHT11ChecksumError.
Proof.
  intros H. unfold derive. rewrite H. reflexivity.
Qed.

Lemma below_In (n : nat) (z : Z) : 0 <= z < Z.of_nat n -> In z (below n).
Proof.
  intros H. unfold below. rewrite <- (Z2Nat.id z) by lia.
  apply in_map, in_seq. lia.
Qed.

Lemma negates_all :
  forallb (fun b2 => forallb (negates b2) (below 128)) (below 256) = true.
Proof. vm_compute. reflexivity. Qed.

Lemma times_minus_one (b2 d : Z) :
  byte b2 -> 0 <= d < 128 ->
  let t := (Py.float_of_int b2 + Py.float_of_int d / 10)%float in
  (t * Py.float_of_int (-1))%float = (- t)%float.
Proof.
  intros Hb Hd t. apply FloatAxioms.Leibniz.eqb_spec.
  pose proof negates_all as H. rewrite forallb_forall in H.
  specialize (H b2 (below_In 256 b2 Hb)). rewrite forallb_forall in H.
  exact (H d (below_In 128 d Hd)).
Qed.

Lemma temperature_code_spec (b2 b3 : Z) :
  byte b2 -> byte b3 ->
  temperature_code b2 b3 = Py.PyFloat (temperature_of b2 b3).
Proof.
  intros H2 H3. unfold temperature_code, temperature_of.
  destruct (Z.land b3 128 =? 0); cbn [negb]; [reflexivity|].
  unfold Py.mul, Py.add, Py.truediv, Py.to_float. f_equal.
  apply (times_minus_one b2 (Z.land b3 127) H2).
  change 127 with (Z.ones 7).
  rewrite (Z.land_ones b3 7) by lia. change (2 ^ 7) with 128.
  apply Z.mod_pos_bound. lia.
Qed.

End Validating.

(** ** The retry controller *)

Section Retrying.

(** The sensor [read] is called on. *)
Variable self : DHT11.

Lemma request_spec (w : world) :
  request self w = World (pin_input w) (log w ++ request_events self).
Proof.
  destruct w as [p l]. unfold request, send_signal, emit, request_events.
  cbn [pin_input log]. now rewrite <- !app_assoc.
Qed.

Lemma attempt_polling (w : world) :
  collect_input (pin_input w) = None ->
  attempt self w = (StillPolling, World [] (log w ++ request_events self)).
Proof.
  intros H. unfold attempt. rewrite request_spec. cbn [pin_input log].
  now rewrite H.
Qed.

Lemma capture_app (t rest : list bool) :
  capture t -> collect_input (t ++ rest) = Some (t, rest).
Proof.
  intros H. unfold collect_input.
  now rewrite (collect_loop_some_app t 0 (-1) [] t [] rest H).
Qed.

Lemma attempt_capture (t rest : list bool) (l : list event) :
  capture t ->
  attempt self (World (t ++ rest) l) =
  (match decode t with inr r => Returned r | inl e => Raised e end,
   World rest (l ++ request_events self)).
Proof.
  intros H. unfold attempt. rewrite request_spec. cbn [pin_input log].
  rewrite (capture_app t rest H). cbn [log]. now destruct (decode t).
Qed.

Lemma read_loop_exit (fuel : nat) (try_count : Z) (w : world) :
  max_tries self <= try_count ->
  read_loop fuel self try_count w = (after_loop self, w).
Proof.
  intros H. destruct fuel; cbn [read_loop];
    destruct (Z.gtb_spec (max_tries self) try_count); (lia || reflexivity).
Qed.

Lemma read_loop_enter (fuel : nat) (try_count : Z) (w : world) :
  try_count < max_tries self ->
  read_loop (S fuel) self try_count w =
  match attempt self w with
  | (Raised e, w') =>
      if Py.is_DHT11Error e then
        read_loop fuel self (try_count + 1)
                  (emit (sleep (min_interval self)) w')
      else (Raised e, w')
  | done => done
  end.
Proof.
  intros H. cbn [read_loop].
  destruct (Z.gtb_spec (max_tries self) try_count); [reflexivity|lia].
Qed.

(** More fuel than iterations left changes nothing: the fuel [read]
    passes never runs out. *)
Lemma read_loop_fuel (fuel : nat) :
  forall try_count w,
    (Z.to_nat (max_tries self - try_count) <= fuel)%nat ->
    read_loop fuel self try_count w =
    read_loop (Z.to_nat (max_tries self - try_count)) self try_count w.
Proof.
  induction fuel as [|fuel IH]; intros try_count w Hf.
  - now replace (Z.to_nat (max_tries self - try_count)) with 0%nat by lia.
  - destruct (Z.le_gt_cases (max_tries self) try_count) as [Hle|Hgt].
    + now rewrite !read_loop_exit by exact Hle.
    + replace (Z.to_nat (max_tries self - try_count))
        with (S (Z.to_nat (max_tries self - (try_count + 1)))) by lia.
      rewrite !read_loop_enter by lia.
      destruct (attempt self w) as [[r|e|] w']; try reflexivity.
      destruct (Py.is_DHT11Error e); [|reflexivity].
      apply IH. lia.
Qed.

(** [k] failed captures in a row: [k] attempts, each followed by the
    delay, and the loop goes on with [try_count + k]. *)
Lemma read_loop_failures (fails : list (list bool)) :
  forall fuel try_count rest l,
    Forall failed_capture fails ->
    (length fails <= fuel)%nat ->
    try_count + Z.of_nat (length fails) <= max_tries self ->
    read_loop fuel self try_count (World (concat fails ++ rest) l) =
    read_loop (fuel - length fails) self
              (try_count + Z.of_nat (length fails))
              (World rest
                 (l ++ concat (repeat (failed_attempt_events self)
                                      (length fails)))).
Proof.
  induction fails as [|t fails IH]; intros fuel try_count rest l Hall Hf Hm.
  - cbn. now rewrite Nat.sub_0_r, Z.add_0_r, app_nil_r.
  - inversion Hall as [|? ? [Hcap (e & He & Hcatch)] Hrest]; subst.
    cbn [length] in *. destruct fuel as [|fuel]; [lia|].
    rewrite read_loop_enter by lia.
    cbn [concat]. rewrite <- app_assoc.
    rewrite (attempt_capture t _ l Hcap), He, Hcatch.
    unfold emit. cbn [pin_input log].
    rewrite IH by (auto; lia).
    cbn [repeat concat Nat.sub]. f_equal; [lia|].
    unfold failed_attempt_events. now rewrite <- !app_assoc.
Qed.

Lemma attempts_failed (k : nat) :
  attempts (concat (repeat (failed_attempt_events self) k)) = k.
Proof.
  induction k as [|k IH]; [reflexivity|].
  unfold attempts in *. cbn [repeat concat].
  rewrite filter_app, length_app, IH. reflexivity.
Qed.


(** One failed capture, seen from the loop: the error is caught, the
    counter goes up and the delay is slept before the next test.  A
    checksum mismatch is such a failure. *)
Lemma read_loop_retry (fuel : nat) (try_count : Z) (t rest : list bool)
    (l : list event) :
  failed_capture t -> try_count < max_tries self ->
  read_loop (S fuel) self try_count (World (t ++ rest) l) =
  read_loop fuel self (try_count + 1)
            (World rest (l ++ failed_attempt_events self)).
Proof.
  intros Hf Hm.
  pose proof (read_loop_failures [t] (S fuel) try_count rest l) as H.
  cbn [concat length repeat Nat.sub] in H.
  rewrite !app_nil_r, Nat.sub_0_r in H. apply H; [|lia|lia].
  now constructor.
Qed.

(** A decoded reading has status Ok. *)
Lemma derive_status (bytes : list Z) (r : DHT11Response) :
  derive bytes = inr r -> status r = STATUS_OK.
Proof.
  unfold derive, Py.bind, Py.ret, Py.raise. intros H.
  destruct (validate_checksum bytes) as [|[|]]; try discriminate.
  cbn [negb] in H.
  destruct (Py.getitem bytes 0); [discriminate|].
  destruct (Py.getitem bytes 1); [discriminate|].
  destruct (Py.getitem bytes 2); [discriminate|].
  destruct (Py.getitem bytes 3); [discriminate|].
  now inversion H.
Qed.

Lemma decode_status (data : list bool) (r : DHT11Response) :
  decode data = inr r -> status r = STATUS_OK.
Proof.
  unfold decode, Py.bind, Py.raise. intros H.
  destruct (parse_input_data data) as [|signals]; [discriminate|].
  destruct (negb (Z.of_nat (length signals) =? 40)); [discriminate|].
  destruct (calculate_bits signals) as [|bytes]; [discriminate|].
  now apply derive_status with bytes.
Qed.

Lemma attempt_status (w w' : world) (r : DHT11Response) :
  attempt self w = (Returned r, w') -> status r = STATUS_OK.
Proof.
  unfold attempt. destruct (collect_input _) as [[d p]|]; [|discriminate].
  destruct (decode d) as [e|r'] eqn:E; intros H; inversion H; subst.
  now apply decode_status with d.
Qed.

Lemma read_loop_status (fuel : nat) :
  forall try_count w w' r,
    read_loop fuel self try_count w = (Returned r, w') ->
    status r = STATUS_OK \/ status r = STATUS_ERROR_TIMEOUT.
Proof.
  induction fuel as [|fuel IH]; intros try_count w w' r H;
    destruct (Z.le_gt_cases (max_tries self) try_count) as [Hle|Hgt].
  1, 3: rewrite read_loop_exit in H by exact Hle; right;
        unfold after_loop in H; destruct (raise_error self) as [[|]|];
        inversion H; reflexivity.
  - cbn [read_loop] in H.
    destruct (Z.gtb_spec (max_tries self) try_count); [discriminate|lia].
  - rewrite read_loop_enter in H by lia.
    destruct (attempt self w) as [[r0|e|] w0] eqn:E.
    + inversion H; subst. left. now apply attempt_status in E.
    + destruct (Py.is_DHT11Error e); [|discriminate].
      now apply IH in H.
    + discriminate.
Qed.

End Retrying.

(** ** The properties of the specification *)

(** The loop has not stopped before the last sample it returns. *)
Lemma collect_input_minimal (l d r : list bool) :
  collect_input l = Some (d, r) ->
  forall n, (n < length d)%nat -> collect_input (firstn n l) = None.
Proof.
  intros H n Hn.
  destruct (collect_input (firstn n l)) as [[d' r']|] eqn:E; [|reflexivity].
  exfalso. pose proof (collect_loop_consumes _ _ _ _ _ _ E) as Hc.
  apply (collect_loop_some_app _ _ _ _ _ _ (skipn n l)) in E.
  rewrite firstn_skipn in E. unfold collect_input in H.
  rewrite H in E. inversion E; subst d'.
  apply (f_equal (@length bool)) in Hc. cbn [app] in Hc.
  rewrite length_app in Hc. pose proof (firstn_le_length n l). lia.
Qed.

(** While the sampling loop is still polling, so is the first attempt
    of [read]. *)
Lemma read_unstable_polling (self : DHT11) (input : list bool)
    (l : list event) :
  collect_input input = None -> 0 < max_tries self ->
  read self (World input l) =
  (StillPolling, World [] (l ++ request_events self)).
Proof.
  intros Hc Hm. unfold read.
  destruct (Z.to_nat (max_tries self)) as [|fuel] eqn:E; [lia|].
  rewrite read_loop_enter by lia.
  now rewrite attempt_polling by exact Hc.
Qed.

(** The retry budget used up by failed captures: [read] ends on
    lines 306 to 308. *)
Lemma read_exhausted (self : DHT11) (fails : list (list bool))
    (rest : list bool) :
  Z.of_nat (length fails) = max_tries self ->
  Forall failed_capture fails ->
  read self (World (concat fails ++ rest) []) =
  (after_loop self,
   World rest (concat (repeat (failed_attempt_events self) (length fails)))).
Proof.
  intros HN Hall. unfold read.
  rewrite read_loop_failures by (auto; lia).
  now rewrite read_loop_exit by lia.
Qed.

(** A line that stays High gives a capture without pulses. *)
Lemma idle_capture_fails : failed_capture idle_capture.
Proof.
  split; [reflexivity|]. exists Py.DHT11InvalidDataError.
  split; reflexivity.
Qed.

Lemma no_stable_run_short (l : list bool) :
  (length l < 200)%nat -> ~ stable_run l.
Proof.
  intros H (a & v & b & E). apply (f_equal (@length bool)) in E.
  rewrite !length_app, repeat_length in E. lia.
Qed.

(** C1: with every attempt failing, [read] does not return a Reading with
    status TimeoutError and does not raise the Timeout error: whatever
    [raise_error] the constructor was given, after exactly [max_tries]
    attempts the lookup of [self.raise_error] raises [AttributeError]. *)
Theorem read_exhausted_raises_AttributeError
    (pin N : Z) (interval : Py.number) (flag : bool)
    (fails : list (list bool)) (rest : list bool) :
  Z.of_nat (length fails) = N ->
  Forall failed_capture fails ->
  let self := DHT11_init pin N interval flag in
  let l := concat (repeat (failed_attempt_events self) (length fails)) in
  read self (World (concat fails ++ rest) []) =
  (Raised Py.AttributeError, World rest l) /\
  Z.of_nat (attempts l) = N.
Proof.
  intros HN Hall self l. split.
  - now rewrite (read_exhausted self fails rest HN Hall).
  - unfold l. now rewrite attempts_failed.
Qed.

Lemma read_exhausted_raises_AttributeError_witness :
  let self := DHT11_init 26 1 MIN_INTERVAL false in
  let l := concat (repeat (failed_attempt_events self) 1) in
  read self (World (idle_capture ++ []) []) =
  (Raised Py.AttributeError, World [] l) /\
  Z.of_nat (attempts l) = 1.
Proof.
  exact (read_exhausted_raises_AttributeError 26 1 MIN_INTERVAL false
           [idle_capture] [] eq_refl
           (Forall_cons _ idle_capture_fails (Forall_nil _))).
Defined.


(** C3 (as amended): when the line never stabilizes, the sampling loop
    never stops and raises nothing: after any number of polls [read] is
    still inside its first attempt, with no retry made. *)
Theorem read_unstable_line_keeps_polling
    (self : DHT11) (s : nat -> bool) (n : nat) (l : list event) :
  never_stabilizes s -> 0 < max_tries self ->
  collect_input (polls s n) = None /\
  read self (World (polls s n) l) =
  (StillPolling, World [] (l ++ request_events self)).
Proof.
  intros Hs Hm.
  assert (Hc : collect_input (polls s n) = None)
    by apply collect_input_running, Hs.
  split; [exact Hc|]. now apply read_unstable_polling.
Qed.

Lemma read_unstable_line_keeps_polling_witness :
  collect_input (polls alternating 1000) = None /\
  read example_sensor (World (polls alternating 1000) []) =
  (StillPolling, World [] ([] ++ request_events example_sensor)).
Proof.
  exact (read_unstable_line_keeps_polling example_sensor alternating 1000 []
           alternating_never_stabilizes eq_refl).
Defined.

(** C3, the claim as stated fails: on the line that changes at every poll
    no run of 200 ever occurs, and for every number of polls the call is
    still polling in its first attempt; no error was raised and nothing
    was retried. *)
Lemma alternating_line_no_timeout :
  never_stabilizes alternating /\
  forall n,
    read example_sensor (World (polls alternating n) []) =
    (StillPolling, World [] (request_events example_sensor)).
Proof.
  split; [exact alternating_never_stabilizes|]. intros n.
  apply (read_unstable_polling example_sensor (polls alternating n) []);
    [|reflexivity].
  apply collect_input_running, alternating_never_stabilizes.
Qed.

(** C4: for bytes [b0], [b1], [b2], [b3] and any candidate checksum [b4],
    the validator accepts the frame exactly when
    [b4 = (b0 + b1 + b2 + b3) mod 256]. *)
Theorem validate_checksum_accepts_iff (b0 b1 b2 b3 b4 : Z) :
  byte b0 -> byte b1 -> byte b2 -> byte b3 ->
  validate_checksum [b0; b1; b2; b3; b4] = inr true <->
  b4 = (b0 + b1 + b2 + b3) mod 256.
Proof. intros _ _ _ _. apply checksum_accepts_iff. Qed.

Lemma validate_checksum_accepts_iff_witness :
  validate_checksum [40; 2; 23; 5; 70] = inr true <->
  70 = (40 + 2 + 23 + 5) mod 256.
Proof.
  apply validate_checksum_accepts_iff; unfold byte; lia.
Defined.

(** C5: an accepted frame of five bytes gives humidity
    [frame[0] + frame[1]/10] and temperature
    [frame[2] + (frame[3] & 0x7F)/10], negated when [frame[3] & 0x80] is
    set; the frame 40, 2, 23, 5, 70 is accepted and gives 40.2 and 23.5;
    a frame with temperature bytes 25 and 0x85 gives -25.5. *)
Theorem derive_values :
  (forall b0 b1 b2 b3 b4,
      Forall byte [b0; b1; b2; b3; b4] ->
      validate_checksum [b0; b1; b2; b3; b4] = inr true ->
      derive [b0; b1; b2; b3; b4] =
      inr (Response STATUS_OK (Py.PyFloat (temperature_of b2 b3))
             (Py.PyFloat (humidity_of b0 b1)))) /\
  (validate_checksum [40; 2; 23; 5; 70] = inr true /\
   derive [40; 2; 23; 5; 70] =
   inr (Response STATUS_OK (Py.PyFloat 23.5) (Py.PyFloat 40.2))) /\
  (forall b0 b1 b4,
      validate_checksum [b0; b1; 25; 133; b4] = inr true ->
      exists r,
        derive [b0; b1; 25; 133; b4] = inr r /\
        temperature r = Py.PyFloat (-25.5)).
Proof.
  split; [|split].
  - intros b0 b1 b2 b3 b4 Hb Hok.
    rewrite derive_accepted by exact Hok.
    rewrite temperature_code_spec; [reflexivity| |];
      eapply Forall_forall; [exact Hb| |exact Hb|]; cbn; auto.
  - split; reflexivity.
  - intros b0 b1 b4 Hok. rewrite derive_accepted by exact Hok.
    eexists. split; reflexivity.
Qed.

Lemma derive_values_witness :
  derive [50; 0; 25; 133; 208] =
  inr (Response STATUS_OK (Py.PyFloat (temperature_of 25 133))
         (Py.PyFloat (humidity_of 50 0))).
Proof.
  apply (proj1 derive_values).
  - repeat constructor; unfold byte; lia.
  - reflexivity.
Defined.

Lemma pattern_bytes_are_bytes (bs : list bool) :
  Forall byte (pattern_bytes bs).
Proof.
  unfold pattern_bytes, byte.
  pose proof (byte_bounds 0 bs) as B0. cbn [skipn] in B0.
  repeat constructor; try apply byte_bounds; apply B0.
Qed.

(** C6: for 40 pulse widths that are sample counts (below [2^52], where
    the threshold of line 217 is exact), with threshold (min + max)/2, the
    decoder returns the five bytes, most significant first, of the 40
    bits that are 1 exactly where the width exceeds the threshold, in
    input order;
    so for widths that lie strictly below the threshold where a pattern
    has 0 and strictly above it where the pattern has 1, the bytes are
    those of the pattern. *)
Theorem calculate_bits_decodes (signals : list Z) :
  length signals = 40%nat ->
  forallb sample_count signals = true ->
  exists mn mx,
    is_min mn signals /\ is_max mx signals /\
    let threshold := (inject_Z (mn + mx) / 2)%Q in
    (forall w, longer_than threshold w = true <-> (threshold < inject_Z w)%Q) /\
    calculate_bits signals =
    inr (pattern_bytes (map (longer_than threshold) signals)) /\
    Forall byte (pattern_bytes (map (longer_than threshold) signals)) /\
    (forall pattern,
        Forall2 (separated threshold) signals pattern ->
        calculate_bits signals = inr (pattern_bytes pattern)).
Proof.
  intros Hlen _.
  destruct (calculate_bits_pattern signals Hlen) as (mn & mx & Hmn & Hmx & E).
  exists mn, mx. split; [exact Hmn|]. split; [exact Hmx|].
  intros threshold. split; [intros w; apply longer_than_spec|].
  split; [exact E|]. split; [apply pattern_bytes_are_bytes|].
  intros pattern Hsep. rewrite E. do 2 f_equal.
  now apply separated_pattern.
Qed.

Lemma calculate_bits_decodes_witness :
  exists mn mx,
    is_min mn (widths (frame_pulses [40; 2; 23; 5; 70])) /\
    is_max mx (widths (frame_pulses [40; 2; 23; 5; 70])) /\
    let threshold := (inject_Z (mn + mx) / 2)%Q in
    (forall w, longer_than threshold w = true <-> (threshold < inject_Z w)%Q) /\
    calculate_bits (widths (frame_pulses [40; 2; 23; 5; 70])) =
    inr (pattern_bytes
           (map (longer_than threshold)
                (widths (frame_pulses [40; 2; 23; 5; 70])))) /\
    Forall byte
      (pattern_bytes
         (map (longer_than threshold)
              (widths (frame_pulses [40; 2; 23; 5; 70])))) /\
    (forall pattern,
        Forall2 (separated threshold)
                (widths (frame_pulses [40; 2; 23; 5; 70])) pattern ->
        calculate_bits (widths (frame_pulses [40; 2; 23; 5; 70])) =
        inr (pattern_bytes pattern)).
Proof.
  exact (calculate_bits_decodes (widths (frame_pulses [40; 2; 23; 5; 70]))
           eq_refl eq_refl).
Defined.

Lemma frame_pulses_clean (bytes : list Z) : Forall clean (frame_pulses bytes).
Proof.
  unfold frame_pulses. apply Forall_forall. intros p Hp.
  apply in_map_iff in Hp. destruct Hp as (b & <- & _).
  unfold clean. destruct b; cbn; lia.
Qed.

(** C7: on a trace made of a Low, High, Low marker, 40 clean high-pulses
    and an unfinished High run, the extractor returns exactly the 40 run
    lengths, in capture order; the unfinished run is dropped. *)
Theorem parse_input_data_forty_pulses
    (a b c g0 m : nat) (ps : list (nat * nat)) :
  (1 <= b)%nat -> (1 <= c)%nat ->
  length ps = 40%nat -> Forall clean ps ->
  parse_input_data
    (start_marker a b c ++ repeat LOW g0 ++ pulse_train ps ++ repeat HIGH m) =
  inr (widths ps) /\
  length (widths ps) = 40%nat.
Proof.
  intros Hb Hc Hlen Hps. split.
  - now apply parse_input_data_train.
  - unfold widths. now rewrite length_map.
Qed.

Lemma parse_input_data_forty_pulses_witness :
  parse_input_data (frame_capture [40; 2; 23; 5; 70]) =
  inr (widths (frame_pulses [40; 2; 23; 5; 70])) /\
  length (widths (frame_pulses [40; 2; 23; 5; 70])) = 40%nat.
Proof.
  apply (parse_input_data_forty_pulses 5 8 8 4 200
           (frame_pulses [40; 2; 23; 5; 70]));
    [lia | lia | reflexivity | apply frame_pulses_clean].
Defined.




(** C9: the sampler appends one level per poll and stops exactly when
    the level has been the same for 200 polls in a row: when the polls
    are [pre], free of such a run and ending on the other level, followed
    by 200 times [v], the trace returned is [pre] with that run, the
    later levels are left unread, and after any smaller number of polls
    the loop is still running; it never stops on samples without a run
    of 200. *)
Theorem collect_input_stops_at_stable_run
    (pre : list bool) (v : bool) (rest : list bool) :
  ~ stable_run pre -> ends_off pre v ->
  collect_input (pre ++ repeat v 200 ++ rest) =
  Some (pre ++ repeat v 200, rest) /\
  (forall n, (n < length pre + 200)%nat ->
             collect_input (firstn n (pre ++ repeat v 200 ++ rest)) = None) /\
  (forall l, ~ stable_run l -> collect_input l = None).
Proof.
  intros Hrun Hend.
  pose proof (collect_input_stable pre v rest Hrun Hend) as H.
  split; [exact H|]. split; [|exact collect_input_running].
  intros n Hn. apply (collect_input_minimal _ _ _ H).
  rewrite length_app, repeat_length. exact Hn.
Qed.

Lemma collect_input_stops_at_stable_run_witness :
  collect_input ([LOW; HIGH] ++ repeat LOW 200 ++ [HIGH; HIGH]) =
  Some ([LOW; HIGH] ++ repeat LOW 200, [HIGH; HIGH]) /\
  (forall n, (n < length [LOW; HIGH] + 200)%nat ->
             collect_input
               (firstn n ([LOW; HIGH] ++ repeat LOW 200 ++ [HIGH; HIGH])) =
             None) /\
  (forall l, ~ stable_run l -> collect_input l = None).
Proof.
  apply (collect_input_stops_at_stable_run [LOW; HIGH] LOW [HIGH; HIGH]).
  - apply no_stable_run_short. cbn. lia.
  - right. exists [LOW]. reflexivity.
Defined.

(** C10: a Reading returned by [read] never has status ChecksumError:
    its status is Ok or TimeoutError. *)
Theorem read_status_ok_or_timeout
    (self : DHT11) (w w' : world) (r : DHT11Response) :
  read self w = (Returned r, w') ->
  status r <> STATUS_ERROR_CHECKSUM /\
  (status r = STATUS_OK \/ status r = STATUS_ERROR_TIMEOUT).
Proof.
  intros H. unfold read in H. apply read_loop_status in H.
  split; [|exact H].
  unfold STATUS_ERROR_CHECKSUM, STATUS_OK, STATUS_ERROR_TIMEOUT in *. lia.
Qed.

Lemma read_status_ok_or_timeout_witness :
  status (Response STATUS_OK (Py.PyFloat 23.5) (Py.PyFloat 40.2)) <>
  STATUS_ERROR_CHECKSUM /\
  (status (Response STATUS_OK (Py.PyFloat 23.5) (Py.PyFloat 40.2)) =
   STATUS_OK \/
   status (Response STATUS_OK (Py.PyFloat 23.5) (Py.PyFloat 40.2)) =
   STATUS_ERROR_TIMEOUT).
Proof.
  apply (read_status_ok_or_timeout example_sensor
           (World (frame_capture [40; 2; 23; 5; 70]) [])
           (World [] (request_events example_sensor))).
  vm_compute. reflexivity.
Defined.

(** * Further properties of the code *)

(** ** The pulse extractor on arbitrary traces *)

Section ParsingAnyTrace.

(** On samples that are not empty the first loop leaves [i] bound to an
    index of the trace. *)
Lemma find_beginning_bound (rest : list bool) :
  forall pattern i k,
    rest <> [] ->
    exists j,
      find_beginning pattern i k rest = Some j /\
      (k <= j < k + length rest)%nat.
Proof.
  induction rest as [|x rest IH]; intros pattern i k Hne; [congruence|].
  cbn [find_beginning length].
  match goal with
  | |- context [if ?b then Some k else _] => destruct b
  end.
  - exists k. split; [reflexivity|lia].
  - destruct rest as [|y rest'].
    + exists k. split; [reflexivity|lia].
    + match goal with
      | |- context [find_beginning ?p (Some k) (S k) (y :: rest')] =>
          destruct (IH p (Some k) (S k)) as (j & Hj & Hb); [congruence|]
      end.
      exists j. split; [exact Hj|]. cbn [length] in *. lia.
Qed.

(** What the second loop adds: positive widths, in total no more than
    the High samples it saw (with the run in progress), and no more
    widths than Low samples. *)
Lemma measure_high_inv (rest : list bool) :
  forall h signals,
    0 <= h ->
    exists new,
      measure_high h signals rest = signals ++ new /\
      Forall (fun w => 1 <= w) new /\
      list_sum new + Z.of_nat (length new) <= h + Z.of_nat (length rest).
Proof.
  induction rest as [|x rest IH]; intros h signals Hh.
  - exists []. rewrite app_nil_r. repeat split; [constructor|cbn; lia].
  - cbn [measure_high]. destruct x; cbn [Bool.eqb HIGH].
    + destruct (IH (h + 1) signals ltac:(lia)) as (new & E & Hpos & Hsum).
      exists new. repeat split; auto. cbn [length]. lia.
    + destruct (Z.gtb_spec h 0) as [Hgt|Hle].
      * destruct (IH 0 (signals ++ [h]) ltac:(lia))
          as (new & E & Hpos & Hsum).
        exists (h :: new). rewrite E, <- app_assoc.
        repeat split; [constructor; [lia|exact Hpos]|].
        cbn [list_sum fold_right length] in *.
        fold (list_sum new). lia.
      * destruct (IH h signals Hh) as (new & E & Hpos & Hsum).
        exists new. repeat split; auto. cbn [length]. lia.
Qed.

End ParsingAnyTrace.

(** X1: on a trace that is not empty and holds no Low, High, Low marker
    the extractor returns no width, and the attempt that collected the
    trace ends with [DHT11InvalidDataError]. *)
Theorem decode_without_marker (data : list bool) :
  data <> [] -> ~ has_marker data ->
  parse_input_data data = inr [] /\
  decode data = inl Py.DHT11InvalidDataError.
Proof.
  intros Hne Hno.
  assert (E : parse_input_data data = inr [])
    by now apply parse_input_data_no_marker.
  split; [exact E|]. unfold decode. now rewrite E.
Qed.

Lemma no_marker_in_highs (n : nat) : ~ has_marker (repeat HIGH n).
Proof.
  intros (a & b & E & _).
  assert (Hin : In LOW (repeat HIGH n)) by (rewrite E; apply in_elt).
  apply repeat_spec in Hin. discriminate.
Qed.

Lemma decode_without_marker_witness :
  parse_input_data idle_capture = inr [] /\
  decode idle_capture = inl Py.DHT11InvalidDataError.
Proof.
  apply decode_without_marker.
  - discriminate.
  - apply no_marker_in_highs.
Defined.

(** X2: on every trace that is not empty the extractor returns: the
    first loop ends with [i] an index of the trace, so the test
    [i >= input_length] never holds and the result is what the second
    loop measures from [i] on. *)
Theorem parse_input_data_returns (data : list bool) :
  data <> [] ->
  exists i,
    find_beginning 0 None 0 data = Some i /\
    (i < length data)%nat /\
    parse_input_data data = inr (measure_high 0 [] (skipn i data)).
Proof.
  intros Hne.
  destruct (find_beginning_bound data 0 None 0 Hne) as (i & Hi & Hb).
  exists i. split; [exact Hi|]. split; [lia|].
  unfold parse_input_data. rewrite Hi.
  destruct (Nat.leb_spec (length data) i); [lia|reflexivity].
Qed.

Lemma parse_input_data_returns_witness :
  exists i,
    find_beginning 0 None 0 [LOW; HIGH; LOW; HIGH; HIGH; LOW] = Some i /\
    (i < length [LOW; HIGH; LOW; HIGH; HIGH; LOW])%nat /\
    parse_input_data [LOW; HIGH; LOW; HIGH; HIGH; LOW] =
    inr (measure_high 0 [] (skipn i [LOW; HIGH; LOW; HIGH; HIGH; LOW])).
Proof.
  apply parse_input_data_returns. discriminate.
Defined.

(** X3: every width the extractor returns is at least 1, and the widths
    together with one sample for each of them fit in the trace: their
    sum plus their number is at most the number of samples. *)
Theorem parse_input_data_widths (data : list bool) (signals : list Z) :
  parse_input_data data = inr signals ->
  Forall (fun w => 1 <= w) signals /\
  list_sum signals + Z.of_nat (length signals) <= Z.of_nat (length data).
Proof.
  unfold parse_input_data. intros H.
  destruct (find_beginning 0 None 0 data) as [i|]; [|discriminate].
  destruct (length data <=? i)%nat.
  - inversion H; subst. split; [constructor|cbn; lia].
  - destruct (measure_high_inv (skipn i data) 0 [] ltac:(lia))
      as (new & E & Hpos & Hsum).
    rewrite E in H. inversion H; subst. cbn [app].
    split; [exact Hpos|]. rewrite length_skipn in Hsum. lia.
Qed.

Lemma parse_input_data_widths_witness :
  Forall (fun w => 1 <= w) [2] /\
  list_sum [2] + Z.of_nat (length [2]) <=
  Z.of_nat (length [LOW; HIGH; LOW; HIGH; HIGH; LOW]).
Proof.
  apply (parse_input_data_widths [LOW; HIGH; LOW; HIGH; HIGH; LOW] [2]).
  reflexivity.
Defined.

(** ** What the sampler returns *)

Section SamplingAnyInput.

(** The trace returned is the trace so far and the samples read; the
    samples left are the rest of the input. *)
Lemma collect_loop_split (l : list bool) :
  forall c last data d r,
    collect_loop c last data l = Some (d, r) ->
    exists read, l = read ++ r /\ d = data ++ read.
Proof.
  induction l as [|x l IH]; intros c last data d r H;
    destruct (Z.lt_ge_cases c 200) as [Hc|Hc];
    try (rewrite collect_loop_stop in H by exact Hc; inversion H; subst;
         exists []; split; [reflexivity|now rewrite app_nil_r]).
  - rewrite collect_loop_nil in H by exact Hc. discriminate.
  - rewrite collect_loop_step in H by exact Hc.
    destruct (IH _ _ _ _ _ H) as (read & -> & ->).
    exists (x :: read). now rewrite <- app_assoc.
Qed.

Lemma tracks_step (c last : Z) (data : list bool) (x : bool) :
  c < 200 -> tracks c last data ->
  tracks (if last =? code x then c + 1 else 1) (code x) (data ++ [x]).
Proof.
  intros Hc [(-> & -> & ->)|(pre & v & k & -> & Hk & -> & -> & Hend)].
  - destruct (Z.eqb_spec (-1) (code x)) as [E|_];
      [now apply code_not_initial in E|].
    right. exists [], x, 1%nat. repeat split; try lia. now left.
  - right. destruct (Z.eqb_spec (code v) (code x)) as [E|E].
    + apply code_inj in E. subst x. exists pre, v, (S k).
      repeat split; try lia; [|exact Hend].
      rewrite <- app_assoc, <- repeat_cons. reflexivity.
    + exists (pre ++ repeat v k), x, 1%nat.
      repeat split; try lia. right.
      destruct k as [|k]; [lia|]. exists (pre ++ repeat v k).
      assert (Hv : v = negb x) by (destruct v, x; cbn in *; congruence).
      rewrite <- Hv, <- app_assoc, <- repeat_cons. reflexivity.
Qed.

Lemma collect_loop_shape (l : list bool) :
  forall c last data d r,
    tracks c last data ->
    collect_loop c last data l = Some (d, r) ->
    exists pre v, d = pre ++ repeat v 200 /\ ends_off pre v.
Proof.
  induction l as [|x l IH]; intros c last data d r Ht H;
    destruct (Z.lt_ge_cases c 200) as [Hc|Hc].
  - rewrite collect_loop_nil in H by exact Hc. discriminate.
  - rewrite collect_loop_stop in H by exact Hc. inversion H; subst.
    destruct Ht as [(-> & _)|(pre & v & k & -> & Hk & _ & -> & Hend)];
      [lia|].
    exists pre, v. replace k with 200%nat by lia. auto.
  - rewrite collect_loop_step in H by exact Hc.
    apply (IH _ _ _ _ _ (tracks_step c last data x Hc Ht) H).
  - rewrite collect_loop_stop in H by exact Hc. inversion H; subst.
    destruct Ht as [(-> & _)|(pre & v & k & -> & Hk & _ & -> & Hend)];
      [lia|].
    exists pre, v. replace k with 200%nat by lia. auto.
Qed.

(** A trace returned on some input is returned on itself alone. *)
Lemma collect_loop_self (p : list bool) :
  forall c last data q,
    collect_loop c last data (p ++ q) = Some (data ++ p, q) ->
    collect_loop c last data p = Some (data ++ p, []).
Proof.
  induction p as [|x p IH]; intros c last data q H;
    destruct (Z.lt_ge_cases c 200) as [Hc|Hc].
  - exfalso. cbn [app] in H. destruct q as [|y q].
    + rewrite collect_loop_nil in H by exact Hc. discriminate.
    + rewrite collect_loop_step in H by exact Hc.
      apply collect_loop_split in H. destruct H as (read & _ & E).
      apply (f_equal (@length bool)) in E.
      rewrite !length_app in E. cbn in E. lia.
  - rewrite collect_loop_stop in * by exact Hc. inversion H as [[E1 E2]].
    now rewrite app_nil_r.
  - cbn [app] in H. rewrite collect_loop_step in * by exact Hc.
    replace (data ++ x :: p) with ((data ++ [x]) ++ p) in *
      by now rewrite <- app_assoc.
    now apply IH with q.
  - exfalso. rewrite collect_loop_stop in H by exact Hc.
    inversion H as [[E1 E2]]. apply (f_equal (@length bool)) in E1.
    rewrite length_app in E1. cbn in E1. lia.
Qed.

End SamplingAnyInput.

(** X4: whenever the sampler returns, the trace is a prefix of the
    levels polled and the rest is left unread; the trace ends with
    exactly 200 identical samples after samples that end on the other
    level (so it has at least 200 samples), no shorter prefix stops the
    loop, and the trace is a complete capture by itself. *)
Theorem collect_input_returns (pin d r : list bool) :
  collect_input pin = Some (d, r) ->
  pin = d ++ r /\
  (exists pre v, d = pre ++ repeat v 200 /\ ends_off pre v) /\
  (200 <= length d)%nat /\
  (forall n, (n < length d)%nat -> collect_input (firstn n pin) = None) /\
  capture d.
Proof.
  intros H. pose proof H as Hs. unfold collect_input in Hs.
  destruct (collect_loop_split _ _ _ _ _ _ Hs) as (read & Hpin & Hd).
  cbn [app] in Hd. subst read.
  destruct (collect_loop_shape pin 0 (-1) [] d r) as (pre & v & Hpre & Hend);
    [left; auto|exact Hs|].
  split; [exact Hpin|]. split; [now exists pre, v|].
  split; [rewrite Hpre, length_app, repeat_length; lia|].
  split; [now apply collect_input_minimal with r|].
  unfold capture, collect_input. subst pin.
  now apply (collect_loop_self d 0 (-1) [] r).
Qed.

Lemma collect_input_returns_witness :
  idle_capture ++ [LOW] = idle_capture ++ [LOW] /\
  (exists pre v, idle_capture = pre ++ repeat v 200 /\ ends_off pre v) /\
  (200 <= length idle_capture)%nat /\
  (forall n, (n < length idle_capture)%nat ->
             collect_input (firstn n (idle_capture ++ [LOW])) = None) /\
  capture idle_capture.
Proof.
  apply (collect_input_returns (idle_capture ++ [LOW]) idle_capture [LOW]).
  reflexivity.
Defined.

(** ** The decoder on arbitrary widths *)

Section DecodingAnyWidths.

(** The comparison with the threshold, on integers. *)
Lemma longer_than_double (mn mx w : Z) :
  longer_than (half_length_of mn mx) w = (mn + mx <? 2 * w).
Proof.
  unfold longer_than, half_length_of, Qle_bool, Qdiv, Qmult, Qinv, inject_Z.
  cbn [Qnum Qden].
  destruct (Z.leb_spec (w * Z.pos (1 * 2)) ((mn + mx) * 1 * 1));
    destruct (Z.ltb_spec (mn + mx) (2 * w)); cbn [negb]; (reflexivity || lia).
Qed.

Lemma is_min_unique (l : list Z) (m m' : Z) :
  is_min m l -> is_min m' l -> m = m'.
Proof.
  intros [Hin Hall] [Hin' Hall']. rewrite Forall_forall in Hall, Hall'.
  specialize (Hall _ Hin'). specialize (Hall' _ Hin). lia.
Qed.

Lemma is_max_unique (l : list Z) (m m' : Z) :
  is_max m l -> is_max m' l -> m = m'.
Proof.
  intros [Hin Hall] [Hin' Hall']. rewrite Forall_forall in Hall, Hall'.
  specialize (Hall _ Hin'). specialize (Hall' _ Hin). lia.
Qed.

(** The decoder in one equation, for any list of widths that is not
    empty. *)
Lemma calculate_bits_eq (signals : list Z) (mn mx : Z) :
  is_min mn signals -> is_max mx signals ->
  calculate_bits signals =
  inr (let bits :=
         bits_value (map (fun w => mn + mx <? 2 * w) signals) in
       [ Z.land (Z.shiftr bits 32) 255; Z.land (Z.shiftr bits 24) 255;
         Z.land (Z.shiftr bits 16) 255; Z.land (Z.shiftr bits 8) 255;
         Z.land bits 255 ]).
Proof.
  intros Hmn Hmx. destruct signals as [|x r]; [destruct Hmn as [[] _]|].
  rewrite (is_min_unique _ _ _ Hmn (fold_min_spec r x)).
  rewrite (is_max_unique _ _ _ Hmx (fold_max_spec r x)).
  unfold calculate_bits, py_min, py_max, Py.bind, Py.ret.
  rewrite fold_push_bit, Z.mul_0_l, Z.add_0_l.
  rewrite (map_ext _ _ (longer_than_double (fold_left Z.min r x)
                                           (fold_left Z.max r x))).
  reflexivity.
Qed.

Lemma bits_value_zeros (n : nat) : bits_value (repeat false n) = 0.
Proof. induction n as [|n IH]; [reflexivity|exact IH]. Qed.

Lemma is_min_repeat (w : Z) (n : nat) : is_min w (repeat w (S n)).
Proof.
  split; [now left|]. apply Forall_forall. intros x Hx.
  apply repeat_spec in Hx. lia.
Qed.

Lemma is_max_repeat (w : Z) (n : nat) : is_max w (repeat w (S n)).
Proof.
  split; [now left|]. apply Forall_forall. intros x Hx.
  apply repeat_spec in Hx. lia.
Qed.

Lemma calculate_bits_constant (w : Z) (n : nat) :
  calculate_bits (repeat w (S n)) = inr [0; 0; 0; 0; 0].
Proof.
  rewrite (calculate_bits_eq _ w w (is_min_repeat w n) (is_max_repeat w n)).
  cbv zeta. rewrite map_repeat.
  replace (w + w <? 2 * w) with false
    by (symmetry; apply Z.ltb_ge; lia).
  rewrite bits_value_zeros. reflexivity.
Qed.

End DecodingAnyWidths.

(** X5: for every list of sample counts that is not empty, whatever its
    length, the decoder returns exactly five values and each is a byte;
    for the empty list [min] raises [ValueError]. *)
Theorem calculate_bits_five_bytes (signals : list Z) :
  (signals <> [] -> forallb sample_count signals = true ->
   exists bytes,
     calculate_bits signals = inr bytes /\
     length bytes = 5%nat /\ Forall byte bytes) /\
  (signals = [] -> calculate_bits signals = inl Py.ValueError).
Proof.
  split.
  - intros Hne _. destruct signals as [|x r]; [congruence|].
    eexists. split; [reflexivity|]. split; [reflexivity|].
    unfold byte. repeat constructor; rewrite land_255;
      apply Z.mod_pos_bound; lia.
  - intros ->. reflexivity.
Qed.

Lemma calculate_bits_five_bytes_witness :
  exists bytes,
    calculate_bits [3; 7; 3] = inr bytes /\
    length bytes = 5%nat /\ Forall byte bytes.
Proof.
  apply (proj1 (calculate_bits_five_bytes [3; 7; 3]));
    [discriminate|reflexivity].
Defined.

(** X6: 40 pulses of one and the same width are read as a valid
    measurement of 0 and 0: the threshold is that width, no width
    exceeds it, the five bytes are 0 and the checksum 0 matches. *)
Theorem decode_equal_widths
    (a b c g0 m w : nat) (gaps : list nat) :
  (1 <= b)%nat -> (1 <= c)%nat -> (1 <= w)%nat ->
  length gaps = 40%nat -> Forall (fun g => 1 <= g)%nat gaps ->
  let ps := map (fun g => (w, g)) gaps in
  let data := start_marker a b c ++ repeat LOW g0 ++ pulse_train ps ++
              repeat HIGH m in
  parse_input_data data = inr (repeat (Z.of_nat w) 40) /\
  calculate_bits (repeat (Z.of_nat w) 40) = inr [0; 0; 0; 0; 0] /\
  decode data =
  inr (Response STATUS_OK (Py.PyFloat 0) (Py.PyFloat 0)).
Proof.
  intros Hb Hc Hw Hlen Hg ps data.
  assert (Hps : Forall clean ps).
  { unfold ps. apply Forall_forall. intros p Hp.
    apply in_map_iff in Hp. destruct Hp as (g & <- & Hin).
    rewrite Forall_forall in Hg. split; cbn; [lia|now apply Hg]. }
  assert (Hw40 : widths ps = repeat (Z.of_nat w) 40).
  { unfold ps, widths. rewrite map_map. cbn [fst].
    rewrite <- Hlen. clear. induction gaps as [|g gs IH]; [reflexivity|].
    cbn [map length repeat]. now rewrite IH. }
  assert (Hparse : parse_input_data data = inr (repeat (Z.of_nat w) 40)).
  { unfold data. rewrite parse_input_data_train by assumption.
    now rewrite Hw40. }
  split; [exact Hparse|]. split; [apply calculate_bits_constant|].
  unfold decode. rewrite Hparse. unfold Py.bind.
  rewrite repeat_length. cbn [Z.of_nat Z.eqb Pos.of_succ_nat Pos.succ negb].
  change (Z.of_nat 40 =? 40) with true. cbn [negb].
  rewrite calculate_bits_constant. reflexivity.
Qed.

Lemma decode_equal_widths_witness :
  let ps := map (fun g => (4%nat, g)) (repeat 5%nat 40) in
  let data := start_marker 5 8 8 ++ repeat LOW 4 ++ pulse_train ps ++
              repeat HIGH 200 in
  parse_input_data data = inr (repeat (Z.of_nat 4) 40) /\
  calculate_bits (repeat (Z.of_nat 4) 40) = inr [0; 0; 0; 0; 0] /\
  decode data =
  inr (Response STATUS_OK (Py.PyFloat 0) (Py.PyFloat 0)).
Proof.
  apply (decode_equal_widths 5 8 8 4 200 4 (repeat 5%nat 40));
    [lia | lia | lia | reflexivity |].
  apply Forall_forall. intros g Hg. apply repeat_spec in Hg. lia.
Defined.

(** ** The checksum and the round trip through pulse widths *)

(** X7: when a frame of bytes is accepted, replacing any one of its five
    bytes by a different byte gives a frame that is rejected. *)
Theorem validate_checksum_detects_one_byte (b0 b1 b2 b3 b4 b' : Z) :
  Forall byte [b0; b1; b2; b3; b4] -> byte b' ->
  validate_checksum [b0; b1; b2; b3; b4] = inr true ->
  (b' <> b0 -> validate_checksum [b'; b1; b2; b3; b4] = inr false) /\
  (b' <> b1 -> validate_checksum [b0; b'; b2; b3; b4] = inr false) /\
  (b' <> b2 -> validate_checksum [b0; b1; b'; b3; b4] = inr false) /\
  (b' <> b3 -> validate_checksum [b0; b1; b2; b'; b4] = inr false) /\
  (b' <> b4 -> validate_checksum [b0; b1; b2; b3; b'] = inr false).
Proof.
  intros Hb Hb' Hok. apply checksum_accepts_iff in Hok.
  rewrite !validate_checksum_frame, !land_255.
  rewrite Forall_forall in Hb.
  pose proof (Hb b0 ltac:(cbn; tauto)) as H0.
  pose proof (Hb b1 ltac:(cbn; tauto)) as H1.
  pose proof (Hb b2 ltac:(cbn; tauto)) as H2.
  pose proof (Hb b3 ltac:(cbn; tauto)) as H3.
  pose proof (Hb b4 ltac:(cbn; tauto)) as H4.
  unfold byte in *.
  repeat split; intros Hne; f_equal; apply Z.eqb_neq; intros E;
    revert Hok E; Z.to_euclidean_division_equations; lia.
Qed.

Lemma validate_checksum_detects_one_byte_witness :
  (41 <> 40 -> validate_checksum [41; 2; 23; 5; 70] = inr false) /\
  (41 <> 2 -> validate_checksum [40; 41; 23; 5; 70] = inr false) /\
  (41 <> 23 -> validate_checksum [40; 2; 41; 5; 70] = inr false) /\
  (41 <> 5 -> validate_checksum [40; 2; 23; 41; 70] = inr false) /\
  (41 <> 70 -> validate_checksum [40; 2; 23; 5; 41] = inr false).
Proof.
  apply (validate_checksum_detects_one_byte 40 2 23 5 70 41).
  - repeat constructor; unfold byte; lia.
  - unfold byte; lia.
  - reflexivity.
Defined.

Section RoundTrip.

Lemma bits_round_trip_all : forallb bits_round_trip (below 256) = true.
Proof. vm_compute. reflexivity. Qed.

Lemma has_zero_bit_all : forallb has_zero_bit (below 256) = true.
Proof. vm_compute. reflexivity. Qed.

(** The eight bits of a byte denote the byte. *)
Lemma bits_of_byte_value (b : Z) : byte b -> bits_value (bits_of_byte b) = b.
Proof.
  intros Hb. pose proof bits_round_trip_all as H.
  rewrite forallb_forall in H. apply Z.eqb_eq.
  apply (H b (below_In 256 b Hb)).
Qed.

(** A byte other than 255 has a 0 among its bits. *)
Lemma bits_of_byte_zero (b : Z) :
  byte b -> b <> 255 -> In false (bits_of_byte b).
Proof.
  intros Hb Hne. pose proof has_zero_bit_all as H.
  rewrite forallb_forall in H. specialize (H b (below_In 256 b Hb)).
  unfold has_zero_bit in H. apply orb_true_iff in H.
  destruct H as [H|H]; [apply Z.eqb_eq in H; contradiction|].
  apply existsb_exists in H. destruct H as ([|] & Hin & Hx);
    [discriminate|exact Hin].
Qed.

Lemma pattern_bytes_of_frame (b0 b1 b2 b3 b4 : Z) :
  Forall byte [b0; b1; b2; b3; b4] ->
  pattern_bytes (flat_map bits_of_byte [b0; b1; b2; b3; b4]) =
  [b0; b1; b2; b3; b4].
Proof.
  intros Hb. rewrite Forall_forall in Hb.
  change (pattern_bytes (flat_map bits_of_byte [b0; b1; b2; b3; b4]))
    with [ bits_value (bits_of_byte b0); bits_value (bits_of_byte b1);
           bits_value (bits_of_byte b2); bits_value (bits_of_byte b3);
           bits_value (bits_of_byte b4) ].
  rewrite !bits_of_byte_value by (apply Hb; cbn; tauto).
  reflexivity.
Qed.

(** With a 0 among the bits, the widths of the bits are told apart by
    the threshold between the least and the greatest of them. *)
Lemma encode_widths_bits (s l mn mx : Z) (bits : list bool) :
  s < l -> In false bits ->
  is_min mn (encode_widths s l bits) ->
  is_max mx (encode_widths s l bits) ->
  map (fun w => mn + mx <? 2 * w) (encode_widths s l bits) = bits.
Proof.
  intros Hsl Hzero [Hmn_in Hmn] [Hmx_in Hmx].
  rewrite Forall_forall in Hmn, Hmx. unfold encode_widths in *.
  assert (Hs : In s (map (fun b : bool => if b then l else s) bits))
    by (apply in_map_iff; now exists false).
  apply in_map_iff in Hmn_in. destruct Hmn_in as (bn & Ebn & _).
  apply in_map_iff in Hmx_in. destruct Hmx_in as (bx & Ebx & _).
  pose proof (Hmn _ Hs) as Hmn_s. pose proof (Hmx _ Hs) as Hmx_s.
  assert (Emn : mn = s) by (destruct bn; lia).
  rewrite map_map. rewrite <- (map_id bits) at 2.
  apply map_ext_in. intros b Hb.
  assert (Hw : In (if b then l else s)
                  (map (fun b : bool => if b then l else s) bits))
    by (apply in_map_iff; now exists b).
  pose proof (Hmx _ Hw) as Hle.
  destruct b, bx; subst mn mx;
    first [ apply Z.ltb_lt; lia | apply Z.ltb_ge; lia ].
Qed.

Lemma encode_widths_in (s l : Z) (bits : list bool) (w : Z) :
  In w (encode_widths s l bits) -> w = s \/ w = l.
Proof.
  unfold encode_widths. intros H. apply in_map_iff in H.
  destruct H as ([|] & <- & _); auto.
Qed.

Lemma frame_zero_bit (b0 b1 b2 b3 b4 : Z) :
  Forall byte [b0; b1; b2; b3; b4] ->
  [b0; b1; b2; b3; b4] <> [255; 255; 255; 255; 255] ->
  In false (flat_map bits_of_byte [b0; b1; b2; b3; b4]).
Proof.
  intros Hb Hne. rewrite Forall_forall in Hb.
  assert (H : exists b, In b [b0; b1; b2; b3; b4] /\ b <> 255).
  { destruct (Z.eq_dec b0 255) as [-> |N];
      [|exists b0; split; [cbn; tauto|exact N]].
    destruct (Z.eq_dec b1 255) as [-> |N];
      [|exists b1; split; [cbn; tauto|exact N]].
    destruct (Z.eq_dec b2 255) as [-> |N];
      [|exists b2; split; [cbn; tauto|exact N]].
    destruct (Z.eq_dec b3 255) as [-> |N];
      [|exists b3; split; [cbn; tauto|exact N]].
    destruct (Z.eq_dec b4 255) as [-> |N];
      [|exists b4; split; [cbn; tauto|exact N]].
    congruence. }
  destruct H as (b & Hin & Hb255). apply in_flat_map. exists b.
  split; [exact Hin|]. apply bits_of_byte_zero; auto.
Qed.

(** The decoder undoes the encoding of a frame in pulse widths. *)
Lemma calculate_bits_encode (s l b0 b1 b2 b3 b4 : Z) :
  s < l ->
  Forall byte [b0; b1; b2; b3; b4] ->
  [b0; b1; b2; b3; b4] <> [255; 255; 255; 255; 255] ->
  calculate_bits
    (encode_widths s l (flat_map bits_of_byte [b0; b1; b2; b3; b4])) =
  inr [b0; b1; b2; b3; b4].
Proof.
  intros Hsl Hb Hne.
  set (bits := flat_map bits_of_byte [b0; b1; b2; b3; b4]).
  assert (Hlen : length (encode_widths s l bits) = 40%nat) by reflexivity.
  destruct (calculate_bits_pattern _ Hlen) as (mn & mx & Hmn & Hmx & E).
  rewrite E. f_equal.
  rewrite (map_ext _ _ (longer_than_double mn mx)).
  rewrite (encode_widths_bits s l mn mx bits Hsl
             (frame_zero_bit _ _ _ _ _ Hb Hne) Hmn Hmx).
  now apply pattern_bytes_of_frame.
Qed.

End RoundTrip.

(** X8: the decoder undoes the encoding of a frame in pulse widths: for
    five bytes that are not all 255, sent bit by bit, most significant
    bit first, as width [s] for a 0 and a greater width [l] for a 1,
    both sample counts, it returns the five bytes; for the frame of five
    bytes 255 it returns five bytes 0. *)
Theorem calculate_bits_round_trip (s l b0 b1 b2 b3 b4 : Z) :
  s < l ->
  sample_count s = true -> sample_count l = true ->
  Forall byte [b0; b1; b2; b3; b4] ->
  ([b0; b1; b2; b3; b4] <> [255; 255; 255; 255; 255] ->
   calculate_bits
     (encode_widths s l (flat_map bits_of_byte [b0; b1; b2; b3; b4])) =
   inr [b0; b1; b2; b3; b4]) /\
  calculate_bits
    (encode_widths s l (flat_map bits_of_byte [255; 255; 255; 255; 255])) =
  inr [0; 0; 0; 0; 0].
Proof.
  intros Hsl _ _ Hb. split.
  - now apply calculate_bits_encode.
  - change (encode_widths s l
              (flat_map bits_of_byte [255; 255; 255; 255; 255]))
      with (repeat l 40).
    apply calculate_bits_constant.
Qed.

Lemma calculate_bits_round_trip_witness :
  ([40; 2; 23; 5; 70] <> [255; 255; 255; 255; 255] ->
   calculate_bits
     (encode_widths 3 7 (flat_map bits_of_byte [40; 2; 23; 5; 70])) =
   inr [40; 2; 23; 5; 70]) /\
  calculate_bits
    (encode_widths 3 7 (flat_map bits_of_byte [255; 255; 255; 255; 255])) =
  inr [0; 0; 0; 0; 0].
Proof.
  apply (calculate_bits_round_trip 3 7 40 2 23 5 70);
    [lia|reflexivity|reflexivity|].
  repeat constructor; unfold byte; lia.
Defined.

(** ** An ideal transmission, end to end *)

Section IdealTransmission.

Lemma collect_loop_same (n : nat) :
  forall c v data rest,
    c + Z.of_nat n <= 200 ->
    collect_loop c (code v) data (repeat v n ++ rest) =
    collect_loop (c + Z.of_nat n) (code v) (data ++ repeat v n) rest.
Proof.
  induction n as [|n IH]; intros c v data rest Hc.
  - cbn [repeat app Z.of_nat]. now rewrite Z.add_0_r, app_nil_r.
  - cbn [repeat app]. rewrite collect_loop_step by lia.
    rewrite Z.eqb_refl, IH by lia. rewrite <- app_assoc.
    f_equal. lia.
Qed.

(** A run shorter than 200 is read through; the counter ends at its
    length. *)
Lemma collect_loop_run (c last : Z) (v : bool) (n : nat)
    (data rest : list bool) :
  c < 200 -> last <> code v -> (1 <= n < 200)%nat ->
  exists data',
    collect_loop c last data (repeat v n ++ rest) =
    collect_loop (Z.of_nat n) (code v) data' rest.
Proof.
  intros Hc Hl Hn. destruct n as [|n]; [lia|].
  cbn [repeat app]. rewrite collect_loop_step by exact Hc.
  destruct (Z.eqb_spec last (code v)) as [E|_]; [contradiction|].
  rewrite collect_loop_same by lia. eexists. f_equal. lia.
Qed.

Variables s l g : nat.
Hypothesis Hs : (1 <= s < l)%nat.
Hypothesis Hl : (l < 200)%nat.
Hypothesis Hg : (1 <= g < 200)%nat.

Lemma collect_loop_pulses (bits : list bool) :
  forall k data rest,
    (k < 200)%nat ->
    exists k' data',
      (k' < 200)%nat /\
      collect_loop (Z.of_nat k) (code LOW) data
                   (pulse_train (bit_pulses s l g bits) ++ rest) =
      collect_loop (Z.of_nat k') (code LOW) data' rest.
Proof.
  induction bits as [|b bits IH]; intros k data rest Hk.
  - exists k, data. split; [exact Hk|reflexivity].
  - cbn [bit_pulses map pulse_train flat_map]. unfold pulse at 1.
    cbn [fst snd]. rewrite <- !app_assoc.
    destruct (collect_loop_run (Z.of_nat k) (code LOW) HIGH
                (if b then l else s) data
                (repeat LOW g ++
                 flat_map pulse (map (fun b0 : bool =>
                                        (if b0 then l else s, g)) bits) ++
                 rest))
      as [d1 ->]; [lia|discriminate|destruct b; lia|].
    destruct (collect_loop_run (Z.of_nat (if b then l else s)) (code HIGH)
                LOW g d1
                (flat_map pulse (map (fun b0 : bool =>
                                        (if b0 then l else s, g)) bits) ++
                 rest))
      as [d2 ->]; [destruct b; lia|discriminate|lia|].
    apply (IH g d2 rest). lia.
Qed.

Lemma bit_pulses_clean (bits : list bool) :
  Forall clean (bit_pulses s l g bits).
Proof.
  apply Forall_forall. intros p Hp. apply in_map_iff in Hp.
  destruct Hp as (b & <- & _). split; cbn [fst snd]; [destruct b|]; lia.
Qed.

Lemma bit_pulses_widths (bits : list bool) :
  widths (bit_pulses s l g bits) =
  encode_widths (Z.of_nat s) (Z.of_nat l) bits.
Proof.
  unfold widths, bit_pulses, encode_widths. rewrite map_map.
  apply map_ext. intros b. now destruct b.
Qed.

Variables a b c g0 : nat.
Hypothesis Ha : (a < 200)%nat.
Hypothesis Hb : (1 <= b < 200)%nat.
Hypothesis Hc : (1 <= c < 200)%nat.
Hypothesis Hg0 : (g0 < 199)%nat.

(** The sampler reads an ideal transmission to its end and stops
    there. *)
Lemma waveform_capture (bytes : list Z) : capture (waveform a b c g0 s l g bytes).
Proof.
  unfold capture.
  set (train := pulse_train (bit_pulses s l g (flat_map bits_of_byte bytes))).
  assert (E : exists d,
             collect_input (waveform a b c g0 s l g bytes) = Some (d, [])).
  { unfold collect_input, waveform, start_marker. fold train.
    rewrite <- !app_assoc.
    assert (H1 : exists c1 last1 d1,
               c1 < 200 /\ last1 <> code LOW /\
               collect_loop 0 (-1) []
                 (repeat HIGH a ++ repeat LOW b ++ repeat HIGH c ++
                  [LOW] ++ repeat LOW g0 ++ train ++ repeat HIGH 200) =
               collect_loop c1 last1 d1
                 (repeat LOW b ++ repeat HIGH c ++
                  [LOW] ++ repeat LOW g0 ++ train ++ repeat HIGH 200)).
    { destruct (Nat.eq_dec a 0) as [-> |Hne].
      - exists 0, (-1), []. split; [lia|]. split; [discriminate|reflexivity].
      - destruct (collect_loop_run 0 (-1) HIGH a []
                    (repeat LOW b ++ repeat HIGH c ++
                     [LOW] ++ repeat LOW g0 ++ train ++ repeat HIGH 200))
          as [d1 E1]; [lia|discriminate|lia|].
        exists (Z.of_nat a), (code HIGH), d1.
        split; [lia|]. split; [discriminate|exact E1]. }
    destruct H1 as (c1 & last1 & d1 & Hc1 & Hl1 & ->).
    destruct (collect_loop_run c1 last1 LOW b d1
                (repeat HIGH c ++ [LOW] ++ repeat LOW g0 ++ train ++
                 repeat HIGH 200))
      as [d2 ->]; [exact Hc1|exact Hl1|lia|].
    destruct (collect_loop_run (Z.of_nat b) (code LOW) HIGH c d2
                ([LOW] ++ repeat LOW g0 ++ train ++ repeat HIGH 200))
      as [d3 ->]; [lia|discriminate|lia|].
    change ([LOW] ++ repeat LOW g0 ++ train ++ repeat HIGH 200)
      with (repeat LOW (S g0) ++ train ++ repeat HIGH 200).
    destruct (collect_loop_run (Z.of_nat c) (code HIGH) LOW (S g0) d3
                (train ++ repeat HIGH 200))
      as [d4 ->]; [lia|discriminate|lia|].
    destruct (collect_loop_pulses (flat_map bits_of_byte bytes) (S g0) d4
                (repeat HIGH 200))
      as (k' & d5 & Hk' & E5); [lia|].
    fold train in E5. rewrite E5.
    rewrite <- (app_nil_r (repeat HIGH 200)).
    rewrite collect_loop_new_run by (lia || discriminate).
    now eexists. }
  destruct E as [d E]. pose proof E as E'. unfold collect_input in E'.
  apply collect_loop_split in E'. destruct E' as (read & Hr & Hd).
  rewrite app_nil_r in Hr. cbn [app] in Hd. now subst.
Qed.

Variables b0 b1 b2 b3 b4 : Z.
Hypothesis Hbytes : Forall byte [b0; b1; b2; b3; b4].
Hypothesis Hok : validate_checksum [b0; b1; b2; b3; b4] = inr true.

Lemma accepted_not_all_ones :
  [b0; b1; b2; b3; b4] <> [255; 255; 255; 255; 255].
Proof.
  intros E. rewrite E in Hok. discriminate Hok.
Qed.

(** Decoding an ideal transmission of an accepted frame gives the
    values of the frame. *)
Lemma waveform_decode :
  decode (waveform a b c g0 s l g [b0; b1; b2; b3; b4]) =
  inr (Response STATUS_OK (Py.PyFloat (temperature_of b2 b3))
         (Py.PyFloat (humidity_of b0 b1))).
Proof.
  unfold decode, waveform.
  rewrite parse_input_data_train by (lia || apply bit_pulses_clean).
  rewrite bit_pulses_widths. unfold Py.bind.
  change (Z.of_nat
            (length (encode_widths (Z.of_nat s) (Z.of_nat l)
                       (flat_map bits_of_byte [b0; b1; b2; b3; b4]))))
    with 40. cbn [Z.eqb Pos.eqb negb].
  rewrite calculate_bits_encode
    by (lia || exact Hbytes || exact accepted_not_all_ones).
  rewrite derive_accepted by exact Hok.
  rewrite temperature_code_spec; [reflexivity| |];
    eapply Forall_forall; [exact Hbytes| |exact Hbytes|]; cbn; tauto.
Qed.

End IdealTransmission.

(** X9: on an ideal transmission of an accepted frame of bytes (the
    marker, 40 pulses of width [s] for a 0 and [l > s] for a 1, every run
    shorter than 200 samples, then the line idle High for 200 samples)
    [read] returns on the first attempt, with status Ok and the humidity
    and the temperature of the frame, and leaves the later levels
    unread. *)
Theorem read_ideal_transmission
    (self : DHT11) (a b c g0 s l g : nat) (b0 b1 b2 b3 b4 : Z)
    (rest : list bool) :
  (a < 200)%nat -> (1 <= b < 200)%nat -> (1 <= c < 200)%nat ->
  (g0 < 199)%nat ->
  (1 <= s < l)%nat -> (l < 200)%nat -> (1 <= g < 200)%nat ->
  Forall byte [b0; b1; b2; b3; b4] ->
  validate_checksum [b0; b1; b2; b3; b4] = inr true ->
  0 < max_tries self ->
  read self
       (World (waveform a b c g0 s l g [b0; b1; b2; b3; b4] ++ rest) []) =
  (Returned (Response STATUS_OK (Py.PyFloat (temperature_of b2 b3))
               (Py.PyFloat (humidity_of b0 b1))),
   World rest (request_events self)).
Proof.
  intros Ha Hb Hc Hg0 Hs Hl Hg Hbytes Hok Hm. unfold read.
  destruct (Z.to_nat (max_tries self)) as [|fuel] eqn:E; [lia|].
  rewrite read_loop_enter by lia.
  assert (Hcap : capture (waveform a b c g0 s l g [b0; b1; b2; b3; b4]))
    by (apply waveform_capture; assumption).
  assert (Hdec : decode (waveform a b c g0 s l g [b0; b1; b2; b3; b4]) =
                 inr (Response STATUS_OK
                        (Py.PyFloat (temperature_of b2 b3))
                        (Py.PyFloat (humidity_of b0 b1))))
    by (apply waveform_decode; assumption).
  now rewrite (attempt_capture self _ rest [] Hcap), Hdec.
Qed.

Lemma read_ideal_transmission_witness :
  read example_sensor
       (World (waveform 5 8 8 4 3 7 5 [40; 2; 23; 5; 70] ++ [LOW]) []) =
  (Returned (Response STATUS_OK (Py.PyFloat (temperature_of 23 5))
               (Py.PyFloat (humidity_of 40 2))),
   World [LOW] (request_events example_sensor)).
Proof.
  apply (read_ideal_transmission example_sensor 5 8 8 4 3 7 5 40 2 23 5 70);
    try lia; try reflexivity.
  repeat constructor; unfold byte; lia.
Defined.

(** ** What an attempt and [read] can end with *)

Section Outcomes.

Lemma parse_input_data_total (data : list bool) :
  data <> [] -> exists signals, parse_input_data data = inr signals.
Proof.
  intros Hne.
  destruct (find_beginning_bound data 0 None 0 Hne) as (i & Hi & _).
  unfold parse_input_data. rewrite Hi.
  destruct (length data <=? i)%nat; eexists; reflexivity.
Qed.

Lemma calculate_bits_shape (signals : list Z) :
  signals <> [] ->
  exists b0 b1 b2 b3 b4, calculate_bits signals = inr [b0; b1; b2; b3; b4].
Proof.
  intros Hne. destruct signals as [|x r]; [congruence|].
  do 5 eexists. reflexivity.
Qed.

(** The ways the decoding of a trace that is not empty can end. *)
Lemma decode_cases (data : list bool) :
  data <> [] ->
  exists signals,
    parse_input_data data = inr signals /\
    ((length signals <> 40%nat /\
      decode data = inl Py.DHT11InvalidDataError) \/
     (length signals = 40%nat /\
      exists bytes,
        calculate_bits signals = inr bytes /\
        ((validate_checksum bytes = inr false /\
          decode data = inl Py.DHT11ChecksumError) \/
         (validate_checksum bytes = inr true /\
          exists r, decode data = inr r /\ status r = STATUS_OK)))).
Proof.
  intros Hne. destruct (parse_input_data_total data Hne) as [signals E].
  exists signals. split; [exact E|]. unfold decode. rewrite E.
  unfold Py.bind.
  destruct (Z.eqb_spec (Z.of_nat (length signals)) 40) as [H40|H40];
    cbn [negb]; [right|left; split; [lia|reflexivity]].
  split; [lia|].
  destruct (calculate_bits_shape signals) as (b0 & b1 & b2 & b3 & b4 & Eb).
  { intros ->. discriminate H40. }
  rewrite Eb. exists [b0; b1; b2; b3; b4]. split; [reflexivity|].
  rewrite validate_checksum_frame.
  destruct (b4 =? Z.land (b0 + b1 + b2 + b3) 255) eqn:Eok.
  - right. split; [reflexivity|].
    rewrite derive_accepted by (now rewrite validate_checksum_frame, Eok).
    eexists. split; reflexivity.
  - left. split; [reflexivity|].
    now rewrite derive_rejected by (now rewrite validate_checksum_frame, Eok).
Qed.

Lemma decode_raises (data : list bool) (e : Py.exn) :
  data <> [] -> decode data = inl e ->
  e = Py.DHT11InvalidDataError \/ e = Py.DHT11ChecksumError.
Proof.
  intros Hne H.
  destruct (decode_cases data Hne)
    as (signals & _ & [[_ E]|(_ & bytes & _ & [[_ E]|(_ & r & E & _)])]);
    rewrite E in H; inversion H; auto.
Qed.


Variable self : DHT11.

(** One attempt makes the calls of a request and reads a prefix of the
    levels. *)
Lemma attempt_effects (w w1 : world) (o : outcome) :
  attempt self w = (o, w1) ->
  log w1 = log w ++ request_events self /\
  exists consumed, pin_input w = consumed ++ pin_input w1.
Proof.
  unfold attempt. rewrite request_spec. cbn [pin_input log].
  destruct (collect_input (pin_input w)) as [[d p]|] eqn:E.
  - apply collect_loop_split in E. destruct E as (read & Er & _).
    destruct (decode d); intros H; inversion H; subst; cbn [pin_input log];
      (split; [reflexivity|now exists read]).
  - intros H. inversion H; subst. cbn [pin_input log].
    split; [reflexivity|]. exists (pin_input w). now rewrite app_nil_r.
Qed.



Lemma read_loop_effects (fuel : nat) :
  forall try_count w o w',
    read_loop fuel self try_count w = (o, w') ->
    exists evs consumed,
      log w' = log w ++ evs /\
      pin_input w = consumed ++ pin_input w' /\
      (attempts evs <= fuel)%nat.
Proof.
  induction fuel as [|fuel IH]; intros try_count w o w' H;
    destruct (Z.le_gt_cases (max_tries self) try_count) as [Hle|Hgt].
  1, 3: rewrite read_loop_exit in H by exact Hle; inversion H; subst;
        exists [], []; rewrite app_nil_r; repeat split; cbn; lia.
  - cbn [read_loop] in H.
    destruct (Z.gtb_spec (max_tries self) try_count); [|lia].
    inversion H; subst. exists [], []. rewrite app_nil_r.
    repeat split; cbn; lia.
  - rewrite read_loop_enter in H by lia.
    destruct (attempt self w) as [o1 w1] eqn:E.
    destruct (attempt_effects _ _ _ E) as (Hlog & consumed & Hpin).
    assert (Hone : attempts (request_events self) = 1%nat) by reflexivity.
    destruct o1 as [r0|e|].
    + inversion H; subst. exists (request_events self), consumed.
      repeat split; auto. lia.
    + destruct (Py.is_DHT11Error e).
      * apply IH in H. destruct H as (evs & consumed' & Hl & Hp & Ha).
        cbn [emit log pin_input] in Hl, Hp.
        exists (request_events self ++ [sleep (min_interval self)] ++ evs),
               (consumed ++ consumed').
        rewrite Hl, Hlog, Hpin, Hp, <- !app_assoc.
        repeat split. unfold attempts in *.
        rewrite !filter_app, !length_app. cbn. lia.
      * inversion H; subst. exists (request_events self), consumed.
        repeat split; auto. lia.
    + inversion H; subst. exists (request_events self), consumed.
      repeat split; auto. lia.
Qed.

End Outcomes.



(** X10: for a trace that is not empty the decoding of an attempt ends
    in one of three ways: [DHT11InvalidDataError], exactly when the
    number of widths extracted is not 40; [DHT11ChecksumError]; or a
    Reading with status Ok, and then the 40 widths decode to bytes the
    checksum test accepts.  No other exception is raised. *)
Theorem decode_outcomes (data : list bool) :
  data <> [] ->
  exists signals,
    parse_input_data data = inr signals /\
    (decode data = inl Py.DHT11InvalidDataError <->
     length signals <> 40%nat) /\
    (forall e, decode data = inl e ->
               e = Py.DHT11InvalidDataError \/ e = Py.DHT11ChecksumError) /\
    (forall r, decode data = inr r ->
               status r = STATUS_OK /\ length signals = 40%nat /\
               exists bytes,
                 calculate_bits signals = inr bytes /\
                 validate_checksum bytes = inr true).
Proof.
  intros Hne.
  destruct (decode_cases data Hne) as (signals & Hp & Hc).
  exists signals. split; [exact Hp|]. split; [|split].
  - destruct Hc as [[Hl E]|(Hl & bytes & _ & [[_ E]|(_ & r & E & _)])];
      rewrite E; split; intros H; try congruence.
  - intros e. now apply decode_raises.
  - intros r H.
    destruct Hc as [[Hl E]|(Hl & bytes & Eb & [[_ E]|(Hok & r' & E & Hs)])];
      rewrite E in H; try discriminate.
    inversion H; subst. split; [exact Hs|]. split; [exact Hl|].
    now exists bytes.
Qed.

Lemma decode_outcomes_witness :
  exists signals,
    parse_input_data idle_capture = inr signals /\
    (decode idle_capture = inl Py.DHT11InvalidDataError <->
     length signals <> 40%nat) /\
    (forall e, decode idle_capture = inl e ->
               e = Py.DHT11InvalidDataError \/ e = Py.DHT11ChecksumError) /\
    (forall r, decode idle_capture = inr r ->
               status r = STATUS_OK /\ length signals = 40%nat /\
               exists bytes,
                 calculate_bits signals = inr bytes /\
                 validate_checksum bytes = inr true).
Proof.
  apply (decode_outcomes idle_capture). discriminate.
Defined.





(** X13: a call of [read] only appends to the log of calls and reads a
    prefix of the levels on the pin, and it starts at most [max_tries]
    attempts (none when [max_tries] is not positive). *)
Theorem read_effects (self : DHT11) (w w' : world) (o : outcome) :
  read self w = (o, w') ->
  exists evs consumed,
    log w' = log w ++ evs /\
    pin_input w = consumed ++ pin_input w' /\
    Z.of_nat (attempts evs) <= Z.max 0 (max_tries self).
Proof.
  intros H. unfold read in H. apply read_loop_effects in H.
  destruct H as (evs & consumed & Hl & Hp & Ha).
  exists evs, consumed. repeat split; auto. lia.
Qed.

Lemma read_effects_witness :
  exists evs consumed,
    log (World [LOW] (failed_attempt_events example_sensor ++
                      request_events example_sensor)) =
    log (World (idle_capture ++ frame_capture [40; 2; 23; 5; 70] ++ [LOW])
               []) ++ evs /\
    pin_input (World (idle_capture ++ frame_capture [40; 2; 23; 5; 70] ++
                      [LOW]) []) =
    consumed ++
    pin_input (World [LOW] (failed_attempt_events example_sensor ++
                            request_events example_sensor)) /\
    Z.of_nat (attempts evs) <= Z.max 0 (max_tries example_sensor).
Proof.
  apply (read_effects example_sensor _ _
           (Returned (Response STATUS_OK (Py.PyFloat 23.5)
                        (Py.PyFloat 40.2)))).
  vm_compute. reflexivity.
Defined.

(** X14: with [max_tries] zero or negative a sensor built by the
    constructor makes no attempt: [read] raises [AttributeError] at once,
    with no call to the GPIO port, no sleep and no level read. *)
Theorem read_without_tries
    (pin N : Z) (interval : Py.number) (flag : bool) (w : world) :
  N <= 0 ->
  read (DHT11_init pin N interval flag) w = (Raised Py.AttributeError, w).
Proof.
  intros HN. unfold read. now rewrite read_loop_exit by (cbn; lia).
Qed.

Lemma read_without_tries_witness :
  read (DHT11_init 26 0 MIN_INTERVAL false) (World idle_capture []) =
  (Raised Py.AttributeError, World idle_capture []).
Proof.
  apply read_without_tries. lia.
Defined.

(** ** The decoder and the speed of the polling loop *)

Lemma is_min_affine (k d mn : Z) (l : list Z) :
  0 < k -> is_min mn l -> is_min (k * mn + d) (map (fun w => k * w + d) l).
Proof.
  intros Hk [Hin Hall]. split.
  - apply in_map_iff. now exists mn.
  - apply Forall_forall. intros x Hx. apply in_map_iff in Hx.
    destruct Hx as (w & <- & Hw). rewrite Forall_forall in Hall.
    specialize (Hall w Hw). nia.
Qed.

Lemma is_max_affine (k d mx : Z) (l : list Z) :
  0 < k -> is_max mx l -> is_max (k * mx + d) (map (fun w => k * w + d) l).
Proof.
  intros Hk [Hin Hall]. split.
  - apply in_map_iff. now exists mx.
  - apply Forall_forall. intros x Hx. apply in_map_iff in Hx.
    destruct Hx as (w & <- & Hw). rewrite Forall_forall in Hall.
    specialize (Hall w Hw). nia.
Qed.

(** X15: the bytes decoded depend on how the widths compare, not on
    their scale: multiplying every width by the same positive factor and
    adding the same offset (a faster or slower polling loop) leaves the
    result of the decoder unchanged, for lists of any length, as long as
    the widths are sample counts before and after. *)
Theorem calculate_bits_affine (k d : Z) (signals : list Z) :
  0 < k ->
  forallb sample_count signals = true ->
  forallb sample_count (map (fun w => k * w + d) signals) = true ->
  calculate_bits (map (fun w => k * w + d) signals) = calculate_bits signals.
Proof.
  intros Hk _ _. destruct signals as [|x r]; [reflexivity|].
  pose proof (fold_min_spec r x) as Hmn.
  pose proof (fold_max_spec r x) as Hmx.
  rewrite (calculate_bits_eq _ _ _ (is_min_affine k d _ _ Hk Hmn)
             (is_max_affine k d _ _ Hk Hmx)).
  rewrite (calculate_bits_eq _ _ _ Hmn Hmx).
  rewrite map_map.
  set (mn := fold_left Z.min r x). set (mx := fold_left Z.max r x).
  rewrite (map_ext (fun w => k * mn + d + (k * mx + d) <? 2 * (k * w + d))
                   (fun w => mn + mx <? 2 * w)); [reflexivity|].
  intros w.
  destruct (Z.ltb_spec (k * mn + d + (k * mx + d)) (2 * (k * w + d)));
    destruct (Z.ltb_spec (mn + mx) (2 * w)); (reflexivity || nia).
Qed.

Lemma calculate_bits_affine_witness :
  calculate_bits
    (map (fun w => 10 * w + 3)
         (widths (frame_pulses [40; 2; 23; 5; 70]))) =
  calculate_bits (widths (frame_pulses [40; 2; 23; 5; 70])).
Proof.
  apply calculate_bits_affine; [lia|reflexivity|reflexivity].
Defined.

(** ** The idle tail of a trace *)

Section IdleTail.

Lemma find_beginning_break_index (l : list bool) :
  forall pattern i k,
    find_beginning pattern i k l =
    match break_index pattern l with
    | Some j => Some (k + j)%nat
    | None => match l with
              | [] => i
              | _ :: _ => Some (k + length l - 1)%nat
              end
    end.
Proof.
  induction l as [|d r IH]; intros pattern i k; [reflexivity|].
  cbn [find_beginning break_index].
  match goal with
  | |- context [if ?b then Some k else _] => destruct b
  end.
  - f_equal. lia.
  - rewrite IH.
    match goal with
    | |- context [break_index ?p r] => destruct (break_index p r) as [j|]
    end; cbn [option_map].
    + f_equal. lia.
    + destruct r as [|y r']; f_equal; cbn [length]; lia.
Qed.

Lemma break_index_highs (m : nat) :
  forall pattern, break_index pattern (repeat HIGH m) = None.
Proof.
  induction m as [|m IH]; intros pattern; [reflexivity|].
  cbn [repeat break_index Bool.eqb HIGH LOW].
  rewrite !andb_false_r. now rewrite IH.
Qed.

Lemma break_index_app_highs (l : list bool) (m : nat) :
  forall pattern,
    break_index pattern (l ++ repeat HIGH m) = break_index pattern l.
Proof.
  induction l as [|d r IH]; intros pattern.
  - apply break_index_highs.
  - cbn [app break_index]. now rewrite IH.
Qed.

Lemma break_index_bound (l : list bool) :
  forall pattern j, break_index pattern l = Some j -> (j < length l)%nat.
Proof.
  induction l as [|d r IH]; intros pattern j H; [discriminate|].
  cbn [break_index] in H.
  match type of H with
  | context [if ?b then Some 0%nat else _] => destruct b
  end.
  - inversion H. cbn. lia.
  - match type of H with
    | context [break_index ?p r] =>
        destruct (break_index p r) as [j'|] eqn:E
    end; [|discriminate].
    inversion H. apply IH in E. cbn. lia.
Qed.

Lemma measure_high_tail (l : list bool) (m : nat) :
  forall h signals,
    measure_high h signals (l ++ repeat HIGH m) = measure_high h signals l.
Proof.
  induction l as [|d r IH]; intros h signals.
  - cbn [app]. rewrite <- (app_nil_r (repeat HIGH m)).
    now rewrite measure_high_high.
  - cbn [app measure_high]. now rewrite !IH.
Qed.

Lemma measure_high_last (l : list bool) :
  l <> [] -> measure_high 0 [] (skipn (length l - 1) l) = [].
Proof.
  intros Hne.
  assert (Hlen : (length l <> 0)%nat) by (destruct l; cbn; congruence).
  destruct (skipn (length l - 1) l) as [|y [|z tl]] eqn:E.
  - reflexivity.
  - destruct y; reflexivity.
  - apply (f_equal (@length bool)) in E. rewrite length_skipn in E.
    cbn in E. lia.
Qed.

End IdleTail.

(** X16: High samples that follow a trace which is not empty never
    change what the extractor returns: the idle tail of a capture,
    however long, adds no width. *)
Theorem parse_input_data_idle_tail (data : list bool) (m : nat) :
  data <> [] ->
  parse_input_data (data ++ repeat HIGH m) = parse_input_data data.
Proof.
  intros Hne.
  assert (Hne' : data ++ repeat HIGH m <> [])
    by (intros E; apply app_eq_nil in E; tauto).
  unfold parse_input_data. rewrite !find_beginning_break_index.
  rewrite break_index_app_highs.
  destruct (break_index 0 data) as [j|] eqn:Ej.
  - apply break_index_bound in Ej. cbn [Nat.add].
    destruct (Nat.leb_spec (length (data ++ repeat HIGH m)) j) as [H|_];
      [rewrite length_app in H; lia|].
    destruct (Nat.leb_spec (length data) j) as [H|_]; [lia|].
    rewrite skipn_app. replace (j - length data)%nat with 0%nat by lia.
    cbn [skipn]. now rewrite measure_high_tail.
  - destruct data as [|d r] eqn:Ed; [congruence|]. rewrite <- Ed in *.
    cbn [Nat.add].
    replace (match data ++ repeat HIGH m with
             | [] => None
             | _ :: _ => Some (length (data ++ repeat HIGH m) - 1)%nat
             end)
      with (Some (length (data ++ repeat HIGH m) - 1)%nat)
      by (rewrite Ed; reflexivity).
    assert (Hl : (length data <> 0)%nat) by (rewrite Ed; discriminate).
    destruct (Nat.leb_spec (length (data ++ repeat HIGH m))
                (length (data ++ repeat HIGH m) - 1)) as [H|_];
      [rewrite length_app in H; lia|].
    destruct (Nat.leb_spec (length data) (length data - 1)) as [H|_]; [lia|].
    now rewrite !measure_high_last.
Qed.

Lemma parse_input_data_idle_tail_witness :
  parse_input_data ([LOW; HIGH; LOW; HIGH; HIGH; LOW] ++ repeat HIGH 200) =
  parse_input_data [LOW; HIGH; LOW; HIGH; HIGH; LOW].
Proof.
  apply parse_input_data_idle_tail. discriminate.
Defined.
